(** * ASMplot: the assembly-spectra plot driver of MERQURY.FK

    A shallow embedding of [ASMplot.c] (option scanning, [check_table], the
    extension-stripping loop, the calls to FastK, [asm_plot] and Fastrm), and
    of the Venn-histogram engine behind [asm_plot], which is described by the
    specification only.

    Conventions
    - a C [int] is a [Z] with its 32-bit wrap-around written out ([int_wrap]);
    - a C [double] is a binary64 [float];
    - a [char] array is the list of its bytes, terminator included, and every
      read goes through [load], which refuses an index outside the object;
    - an element of [argv] is the string of its characters, none of them NUL;
    - what the program does to the outside world is a list of [Event]s. *)

From Stdlib Require Import ZArith QArith Qround String Ascii List PrimFloat Uint63 Lia.
From Stdlib.Strings Require Import Byte.
From Equations Require Import Equations.
From stdpp Require Import gmap strings list fin_maps pretty sorting.

Local Open Scope string_scope.
Local Open Scope list_scope.
Local Open Scope Z_scope.

(* ===================================================================== *)
(** * Machine integers *)
(* ===================================================================== *)

(** Conversion of a mathematical integer to a 32-bit two's complement [int]. *)
Definition int_wrap (x : Z) : Z :=
  let r := x mod 2 ^ 32 in if r <? 2 ^ 31 then r else r - 2 ^ 32.

(** Subtraction of two [size_t] values (64-bit, unsigned). *)
Definition size_t_sub (a b : Z) : Z := (a - b) mod 2 ^ 64.

(* ===================================================================== *)
(** * Character arrays *)
(* ===================================================================== *)

(** Why an execution left the defined behaviour of C. *)
Inductive Fault :=
| OutOfBoundsRead (index : Z)
| BufferOverflow (needed : nat).

(** The result of code that can stop early: a value, or what stopped it. *)
Inductive Res (E A : Type) :=
| Ok (a : A)
| Err (e : E).
Arguments Ok {E A} a.
Arguments Err {E A} e.

Definition res_bind {E A B} (m : Res E A) (k : A → Res E B) : Res E B :=
  match m with
  | Ok a => k a
  | Err e => Err e
  end.

#[global] Instance res_mret {E} : MRet (Res E) := λ A a, Ok a.
#[global] Instance res_mbind {E} : MBind (Res E) := λ A B k m, res_bind m k.

(** Code that reads memory either yields a value or faults. *)
Abbreviation Access := (Res Fault).
Abbreviation Faulty f := (@Err Fault _ f).

Definition NUL : ascii := Ascii.zero.

(** The array an argument string lives in: its characters and the terminator. *)
Definition c_array (s : string) : list ascii := list_ascii_of_string s ++ [NUL].

(** [p[i]] for the array [b] that [p] points to the start of. *)
Definition load (b : list ascii) (i : Z) : Access ascii :=
  if i <? 0 then Faulty (OutOfBoundsRead i)
  else match b !! Z.to_nat i with
       | Some c => Ok c
       | None => Faulty (OutOfBoundsRead i)
       end.

(** [strlen(p+i)], reading at most [fuel] characters of the array. *)
Fixpoint strlen_from (fuel : nat) (b : list ascii) (i : Z) : Access Z :=
  match fuel with
  | O => Faulty (OutOfBoundsRead i)
  | S fuel' =>
      load b i ≫= λ c : ascii,
      if Ascii.eqb c NUL then Ok 0
      else n ← strlen_from fuel' b (i + 1); Ok (n + 1)
  end.

Definition strlen (b : list ascii) : Access Z :=
  strlen_from (S (length b)) b 0.

(** [strcmp(p+i, s) == 0] for a string literal [s] (no NUL inside): the
    characters are compared one by one, left to right, until they differ or
    both strings end. *)
Fixpoint strcmp_eq (b : list ascii) (i : Z) (s : string) : Access bool :=
  load b i ≫= λ c : ascii,
  match s with
  | EmptyString => Ok (Ascii.eqb c NUL)
  | String d s' =>
      if Ascii.eqb c d then strcmp_eq b (i + 1) s' else Ok false
  end.

(** The C string held in an array: the characters before the first NUL. *)
Fixpoint c_string (b : list ascii) : string :=
  match b with
  | [] => EmptyString
  | c :: r => if Ascii.eqb c NUL then EmptyString else String c (c_string r)
  end.

(* ===================================================================== *)
(** * Stripping the extensions of an assembly name (main, lines 198-206) *)
(* ===================================================================== *)

Definition suffix : list string :=
  [".gz"; ".fa"; ".fq"; ".fasta"; ".fastq"; ".db"; ".sam"; ".bam"; ".cram"].

(** One turn of the [j] loop:
<<
    len = strlen(ASM[i]) - strlen(suffix[j]);
    if (strcmp(ASM[i]+len,suffix[j]) == 0)
      ASM[i][len] = '\0';
>>
    The difference is taken in [size_t] and stored in an [int]. *)
Definition strip_suffix (b : list ascii) (suf : string) : Access (list ascii) :=
  n ← strlen b;
  let len := int_wrap (size_t_sub n (Z.of_nat (String.length suf))) in
  strcmp_eq b len suf ≫= λ same : bool,
  if same then Ok (<[Z.to_nat len := NUL]> b) else Ok b.

Fixpoint strip_suffixes (b : list ascii) (sufs : list string) : Access (list ascii) :=
  match sufs with
  | [] => Ok b
  | suf :: rest => b' ← strip_suffix b suf; strip_suffixes b' rest
  end.

(** The name left in [ASM[i]] after the loop over the nine suffixes. *)
Definition strip_extensions (name : string) : Access string :=
  b ← strip_suffixes (c_array name) suffix; Ok (c_string b).

(** What the loop is meant to do, on the characters of the name: a suffix
    that ends the name is dropped, each of the nine once, in order. *)
Definition drop_extension (l : list ascii) (suf : string) : list ascii :=
  let s := list_ascii_of_string suf in
  if bool_decide (drop (length l - length s) l = s)
  then take (length l - length s) l
  else l.

Abbreviation stripped name :=
  (string_of_list_ascii (foldl drop_extension (list_ascii_of_string name) suffix)).

(* ===================================================================== *)
(** * The command line (main, lines 66-185) *)
(* ===================================================================== *)

(** The part of [libfastk.h] the driver uses.  The macros and helpers are not
    part of this file; each is taken as it is called.  A macro that rejects
    an argument prints a line on stderr and calls [exit(1)]: that is the
    [Err text] result.
    - [ARG_INIT name] yields [Prog_Name] and the initial [flags] array;
    - [ARG_FLAGS set arg flags] yields the [flags] array after [arg];
    - [ARG_REAL arg] and [ARG_POSITIVE arg what] yield the value assigned to
      the variable they are given. *)
Class LibFastK := {
  ARG_INIT : string → string * (ascii → Z);
  ARG_FLAGS : string → string → (ascii → Z) → Res string (ascii → Z);
  ARG_REAL : string → Res string float;
  ARG_POSITIVE : string → string → Res string Z;
  Root : string → string → string;
  Catenate : string → string → string → string → string;
}.

Inductive Axis := AxisX | AxisY.

(** The ways the driver gives up with a message and [exit (1)]. *)
Inductive Fatal :=
| BadArgument (text : string)
| UnknownOption (arg : string)
| InvalidScale (axis : Axis)
| BadUsage
| TableUnreadable (name : string)
| KmerLengthMismatch (kmer : Z) (name : string) (lmer : Z).

Definition nl : string := String "010"%char EmptyString.

Fixpoint spaces (n : nat) : string :=
  match n with
  | O => EmptyString
  | S n' => String " "%char (spaces n')
  end.

Definition Usage : list string :=
  [ " [-w<double(6.0)>] [-h<double(4.5)>]";
    " [-[xX]<number(x2.1)>] [-[yY]<number(y1.1)>]";
    " [-v] [-lfs] [-pdf] [-z] [-T<int(4)>] [-P<dir(/tmp)>]";
    " <reads>[.ktab] <asm1dna> [<asm2:.dna>] <out>" ].

Definition usage_line (Prog_Name : string) (k : nat) : string :=
  "       " +:+ spaces (String.length Prog_Name) +:+ " "
  +:+ nth k Usage EmptyString +:+ nl.

Definition usage_text (Prog_Name : string) : string :=
  nl +:+ "Usage: " +:+ Prog_Name +:+ " " +:+ nth 0 Usage EmptyString +:+ nl
  +:+ usage_line Prog_Name 1 +:+ usage_line Prog_Name 2 +:+ usage_line Prog_Name 3
  +:+ nl
  +:+ "      -w: width in inches of plots" +:+ nl
  +:+ "      -h: height in inches of plots" +:+ nl
  +:+ "      -x: max x as a real-valued multiple of x* with max" +:+ nl
  +:+ "              count 'peak' away from the origin" +:+ nl
  +:+ "      -X: max x as an int value in absolute terms" +:+ nl
  +:+ "      -y: max y as a real-valued multiple of max count" +:+ nl
  +:+ "              'peak' away from the origin" +:+ nl
  +:+ "      -Y: max y as an int value in absolute terms" +:+ nl
  +:+ nl
  +:+ "      -l: draw line plot" +:+ nl
  +:+ "      -f: draw fill plot" +:+ nl
  +:+ "      -s: draw stack plot" +:+ nl
  +:+ "          any combo allowed, none => draw all" +:+ nl
  +:+ nl
  +:+ "    -pdf: output .pdf (default is .png)" +:+ nl
  +:+ nl
  +:+ "      -z: plot counts of k-mers unique to one or both assemblies" +:+ nl
  +:+ nl
  +:+ "      -v: verbose output to stderr" +:+ nl
  +:+ "      -T: number of threads to use" +:+ nl
  +:+ "      -P: Place all temporary files in directory -P." +:+ nl.

(** What is written to stderr before [exit (1)]. *)
Definition stderr_text (Prog_Name : string) (f : Fatal) : string :=
  match f with
  | BadArgument text => text
  | UnknownOption arg =>
      Prog_Name +:+ ": don't recognize option " +:+ arg +:+ nl
  | InvalidScale AxisX =>
      Prog_Name +:+ ": max x scaling factor must be > 0" +:+ nl
  | InvalidScale AxisY =>
      Prog_Name +:+ ": max y scaling factor must be > 0" +:+ nl
  | BadUsage => usage_text Prog_Name
  | TableUnreadable name =>
      Prog_Name +:+ ": Cannot find FastK table " +:+ name +:+ nl
  | KmerLengthMismatch kmer name lmer =>
      Prog_Name +:+ ": Kmer (" +:+ pretty kmer +:+ ") of table " +:+ name
      +:+ " != " +:+ pretty lmer +:+ nl
  end.

(** The variables the option loop assigns, and [argv[1..j-1]] as compacted
    by [argv[j++] = argv[i]]. *)
Record Options := mkOptions {
  o_flags : ascii → Z;
  o_XDIM : float;
  o_YDIM : float;
  o_XREL : float;
  o_YREL : float;
  o_XMAX : Z;
  o_YMAX : Z;
  o_PDF : Z;
  o_NTHREADS : Z;
  o_SORT_PATH : string;
  o_args : list string;
}.

(** The configuration [main] leaves its first block with. *)
Record Config := mkConfig {
  VERBOSE : Z;
  LINE : Z;
  FILL : Z;
  STACK : Z;
  PDF : Z;
  ZGRAM : Z;
  XDIM : float;
  YDIM : float;
  XREL : float;
  YREL : float;
  XMAX : Z;
  YMAX : Z;
  OUT : string;
  ASM0 : string;
  ASM1 : option string;
  READS : string;
  NTHREADS : Z;
  SORT_PATH : string;
}.

(** [x <= 0.] on doubles (false on a NaN). *)
Definition nonpositive (x : float) : bool := PrimFloat.leb x 0%float.

(** [argv[i]+2]: the text after the option letter. *)
Definition after_letter (arg : string) : string :=
  String.substring 2 (String.length arg - 2) arg.

(** [argv[i][k]]: the terminator at the end of the string. *)
Definition char_at (arg : string) (k : nat) : ascii :=
  match String.get k arg with
  | Some c => c
  | None => NUL
  end.

Section Driver.
Context `{L : LibFastK}.

Definition Prog_Name : string := fst (ARG_INIT "ASMpLot").

Definition macro {A} (r : Res string A) : Res Fatal A :=
  match r with
  | Ok a => Ok a
  | Err text => Err (BadArgument text)
  end.

Definition defaults : Options :=
  {| o_flags := snd (ARG_INIT "ASMpLot");
     o_XDIM := 6.0%float;
     o_YDIM := 4.5%float;
     o_XREL := 0x1.0cccccccccccdp+1%float;
     o_YREL := 0x1.199999999999ap+0%float;
     o_XMAX := 0;
     o_YMAX := 0;
     o_PDF := 0;
     o_NTHREADS := 4;
     o_SORT_PATH := "/tmp";
     o_args := [] |}.

(** The [switch (argv[i][1])] of the option loop. *)
Definition scan_option (o : Options) (arg : string) : Res Fatal Options :=
  let '(mkOptions fl xd yd xr yr xm ym pdf nt sp args) := o in
  let c := char_at arg 1 in
  if Ascii.eqb c "h" then
    v ← macro (ARG_REAL arg);
    Ok (mkOptions fl xd v xr yr xm ym pdf nt sp args)
  else if Ascii.eqb c "p" then
    if String.eqb "df" (after_letter arg)
    then Ok (mkOptions fl xd yd xr yr xm ym 1 nt sp args)
    else Err (UnknownOption arg)
  else if Ascii.eqb c "w" then
    v ← macro (ARG_REAL arg);
    Ok (mkOptions fl v yd xr yr xm ym pdf nt sp args)
  else if Ascii.eqb c "x" then
    macro (ARG_REAL arg) ≫= λ v : float,
    if nonpositive v then Err (InvalidScale AxisX)
    else Ok (mkOptions fl xd yd v yr xm ym pdf nt sp args)
  else if Ascii.eqb c "y" then
    macro (ARG_REAL arg) ≫= λ v : float,
    if nonpositive v then Err (InvalidScale AxisY)
    else Ok (mkOptions fl xd yd xr v xm ym pdf nt sp args)
  else if Ascii.eqb c "P" then
    Ok (mkOptions fl xd yd xr yr xm ym pdf nt (after_letter arg) args)
  else if Ascii.eqb c "T" then
    v ← macro (ARG_POSITIVE arg "Number of threads");
    Ok (mkOptions fl xd yd xr yr xm ym pdf v sp args)
  else if Ascii.eqb c "X" then
    v ← macro (ARG_POSITIVE arg "x max");
    Ok (mkOptions fl xd yd xr yr v ym pdf nt sp args)
  else if Ascii.eqb c "Y" then
    v ← macro (ARG_POSITIVE arg "y max");
    Ok (mkOptions fl xd yd xr yr xm v pdf nt sp args)
  else
    fl' ← macro (ARG_FLAGS "vlfsz" arg fl);
    Ok (mkOptions fl' xd yd xr yr xm ym pdf nt sp args).

(** The body of the [for] loop for one [argv[i]]: an option, or an argument
    kept by [argv[j++] = argv[i]]. *)
Definition scan_arg (o : Options) (arg : string) : Res Fatal Options :=
  if Ascii.eqb (char_at arg 0) "-" then scan_option o arg
  else
    let '(mkOptions fl xd yd xr yr xm ym pdf nt sp args) := o in
    Ok (mkOptions fl xd yd xr yr xm ym pdf nt sp (args ++ [arg])).

(** [for (i = 1; i < argc; i++)] over [argv[1..]]. *)
Fixpoint scan_args (o : Options) (rest : list string) : Res Fatal Options :=
  match rest with
  | [] => Ok o
  | arg :: rest' => o' ← scan_arg o arg; scan_args o' rest'
  end.

(** Lines 140-184: the flags are read out, the number of remaining
    arguments is checked, the plot styles default to all three, and the
    remaining arguments are named. *)
Definition configure (o : Options) : Res Fatal Config :=
  let VERBOSE := o_flags o "v"%char in
  let LINE := o_flags o "l"%char in
  let FILL := o_flags o "f"%char in
  let STACK := o_flags o "s"%char in
  let ZGRAM := o_flags o "z"%char in
  let none := int_wrap (int_wrap (LINE + FILL) + STACK) =? 0 in
  let LINE := if none then 1 else LINE in
  let FILL := if none then 1 else FILL in
  let STACK := if none then 1 else STACK in
  match o_args o with
  | [reads; asm1; out] =>
      Ok (mkConfig VERBOSE LINE FILL STACK (o_PDF o) ZGRAM
            (o_XDIM o) (o_YDIM o) (o_XREL o) (o_YREL o) (o_XMAX o) (o_YMAX o)
            out asm1 None reads (o_NTHREADS o) (o_SORT_PATH o))
  | [reads; asm1; asm2; out] =>
      Ok (mkConfig VERBOSE LINE FILL STACK (o_PDF o) ZGRAM
            (o_XDIM o) (o_YDIM o) (o_XREL o) (o_YREL o) (o_XMAX o) (o_YMAX o)
            out asm1 (Some asm2) reads (o_NTHREADS o) (o_SORT_PATH o))
  | _ => Err BadUsage
  end.

(** The first block of [main]: [argv[0]] is skipped. *)
Definition parse_args (argv : list string) : Res Fatal Config :=
  o ← scan_args defaults (tail argv); configure o.

End Driver.

(* ===================================================================== *)
(** * The outside world and what the program does to it *)
(* ===================================================================== *)

(** What [main] finds around it: which files [fopen] can open for reading
    and what they hold, the name [mktemp] hands out, and the value an
    [int] that was never written happens to have. *)
Record World := mkWorld {
  fopen : string → option (list byte);
  mktemp : string → string;
  indeterminate : Z;
}.

(** The arguments of the call to [asm_plot], in the order of the call. *)
Record PlotArgs := mkPlotArgs {
  p_OUT : string;
  p_ASM1 : string;
  p_ASM2 : option string;
  p_READS : string;
  p_XDIM : float;
  p_YDIM : float;
  p_XREL : float;
  p_YREL : float;
  p_XMAX : Z;
  p_YMAX : Z;
  p_PDF : Z;
  p_ZGRAM : Z;
  p_LINE : Z;
  p_FILL : Z;
  p_STACK : Z;
  p_troot : string;
  p_NTHREADS : Z;
}.

Inductive Event :=
| Stderr (text : string)
| Fopen (name : string)
| System (command : string)
| AsmPlot (args : PlotArgs).

(** How a run ends: [exit (code)], or undefined behaviour. *)
Inductive Stop :=
| Exit (code : Z)
| Undefined (f : Fault).

(** A computation of the driver: the events so far, and a value or the end
    of the run. *)
Definition Run (A : Type) : Type := list Event * Res Stop A.

Definition run_ret {A} (a : A) : Run A := ([], Ok a).

Definition run_bind {A B} (m : Run A) (k : A → Run B) : Run B :=
  match m with
  | (t, Ok a) => let '(t', r) := k a in ((t ++ t')%list, r)
  | (t, Err s) => (t, Err s)
  end.

#[global] Instance run_mret : MRet Run := @run_ret.
#[global] Instance run_mbind : MBind Run := λ A B k m, run_bind m k.

Definition emit (e : Event) : Run unit := ([e], Ok tt).

Definition stop {A} (s : Stop) : Run A := ([], Err s).

Definition access {A} (r : Access A) : Run A :=
  match r with
  | Ok a => run_ret a
  | Err f => stop (Undefined f)
  end.

Definition template : string := "._ASM.XXXX".

Definition byte_val (b : byte) : Z := Z.of_N (Byte.to_N b).

(** Byte [i] of the object representation of an [int], lowest first. *)
Definition int_byte (x : Z) (i : nat) : Z :=
  Z.land (Z.shiftr x (8 * Z.of_nat i)) 255.

(** The [int] whose object representation is the four bytes, lowest first. *)
Definition int_of_bytes (b0 b1 b2 b3 : Z) : Z :=
  int_wrap (Z.lor b0 (Z.lor (Z.shiftl b1 8) (Z.lor (Z.shiftl b2 16) (Z.shiftl b3 24)))).

(** [fread(&kmer,sizeof(int),1,f)] on a little-endian machine: the first four
    bytes of the file.  From a shorter file [fread] copies the bytes that are
    there into the first bytes of [kmer] and returns 0; the other bytes of
    [kmer] stay as they were. *)
Definition fread_int (file : list byte) (old : Z) : Z :=
  match file with
  | [] => old
  | [b0] =>
      int_of_bytes (byte_val b0) (int_byte old 1) (int_byte old 2) (int_byte old 3)
  | [b0; b1] =>
      int_of_bytes (byte_val b0) (byte_val b1) (int_byte old 2) (int_byte old 3)
  | [b0; b1; b2] =>
      int_of_bytes (byte_val b0) (byte_val b1) (byte_val b2) (int_byte old 3)
  | b0 :: b1 :: b2 :: b3 :: _ =>
      int_of_bytes (byte_val b0) (byte_val b1) (byte_val b2) (byte_val b3)
  end.

(** [sprintf(command,...)] into [char command[5000]]. *)
Definition sprintf_command (text : string) : Run string :=
  if (5000 <=? Z.of_nat (String.length text))
  then stop (Undefined (BufferOverflow (S (String.length text))))
  else run_ret text.

Definition fastk_command (KMER NTHREADS : Z) (SORT_PATH name : string) : string :=
  "FastK -k" +:+ pretty KMER +:+ " -T" +:+ pretty NTHREADS
  +:+ " -P" +:+ SORT_PATH +:+ " -t1 " +:+ name.

Definition fastrm_command (name : string) : string := "Fastrm " +:+ name.

Section Main.
Context `{L : LibFastK}.

(** [fprintf(stderr,...); exit (1);] *)
Definition fatal {A} (f : Fatal) : Run A :=
  emit (Stderr (stderr_text Prog_Name f));; stop (Exit 1).

(** [check_table] (lines 30-48). *)
Definition check_table (w : World) (name : string) (lmer : Z) : Run Z :=
  emit (Fopen name);;
  match fopen w name with
  | None => fatal (TableUnreadable name)
  | Some file =>
      let kmer := fread_int file (int_wrap (indeterminate w)) in
      if negb (lmer =? 0) && negb (kmer =? lmer)
      then fatal (KmerLengthMismatch kmer name lmer)
      else run_ret kmer
  end.

(** One turn of the loop of lines 198-213 for an assembly that was given:
    the extensions are stripped in place, and FastK is run on what is left. *)
Definition make_table (c : Config) (KMER : Z) (asm : string) : Run string :=
  name ← access (strip_extensions asm);
  (if VERBOSE c =? 0 then run_ret tt
   else emit (Stderr (nl +:+ "  Making k-mer table for assembly " +:+ name +:+ nl)));;
  command ← sprintf_command (fastk_command KMER (NTHREADS c) (SORT_PATH c) name);
  emit (System command);;
  run_ret name.

Definition remove_table (asm : string) : Run unit :=
  command ← sprintf_command (fastrm_command asm);
  emit (System command).

(** The second block of [main] (lines 187-235). *)
Definition run (w : World) (c : Config) : Run unit :=
  let troot := mktemp w template in
  let READS := Root (READS c) ".ktab" in
  KMER ← check_table w (Catenate READS ".ktab" EmptyString EmptyString) 0;
  asm1 ← make_table c KMER (ASM0 c);
  asm2 ← match ASM1 c with
         | None => run_ret None
         | Some a => a' ← make_table c KMER a; run_ret (Some a')
         end;
  (if VERBOSE c =? 0 then run_ret tt
   else emit (Stderr (nl +:+ "  Making Venn histograms and plotting" +:+ nl)));;
  emit (AsmPlot (mkPlotArgs (OUT c) asm1 asm2 READS (XDIM c) (YDIM c) (XREL c)
                   (YREL c) (XMAX c) (YMAX c) (PDF c) (ZGRAM c) (LINE c)
                   (FILL c) (STACK c) troot (NTHREADS c)));;
  remove_table asm1;;
  match asm2 with
  | None => run_ret tt
  | Some a => remove_table a
  end;;
  stop (Exit 0).

Definition main (w : World) (argv : list string) : Run unit :=
  match parse_args argv with
  | Err f => fatal f
  | Ok c => run w c
  end.

End Main.

(* ===================================================================== *)
(** * What is read off a run *)
(* ===================================================================== *)

Definition is_stderr (e : Event) : bool :=
  match e with
  | Stderr _ => true
  | _ => false
  end.

(** A run without its diagnostics: everything but the writes to stderr. *)
Definition silent (t : list Event) : list Event :=
  List.filter (λ e, negb (is_stderr e)) t.

(** The calls to [asm_plot] and the commands given to [system], in order. *)
Definition plot_calls (t : list Event) : list PlotArgs :=
  omap (λ e, match e with AsmPlot a => Some a | _ => None end) t.

Definition commands (t : list Event) : list string :=
  omap (λ e, match e with System c => Some c | _ => None end) t.



(** The same configuration with another value of [VERBOSE]. *)
Definition with_VERBOSE (v : Z) (c : Config) : Config :=
  mkConfig v (LINE c) (FILL c) (STACK c) (PDF c) (ZGRAM c) (XDIM c) (YDIM c)
    (XREL c) (YREL c) (XMAX c) (YMAX c) (OUT c) (ASM0 c) (ASM1 c) (READS c)
    (NTHREADS c) (SORT_PATH c).

(** The axis a relative-scale option [-x...] or [-y...] is about. *)
Definition scale_axis (arg : string) : option Axis :=
  if Ascii.eqb (char_at arg 0) "-" then
    if Ascii.eqb (char_at arg 1) "x" then Some AxisX
    else if Ascii.eqb (char_at arg 1) "y" then Some AxisY
    else None
  else None.

(** Two computations that differ in what they write to stderr only. *)
Definition same_but_stderr {A} (m1 m2 : Run A) : Prop :=
  silent m1.1 = silent m2.1 ∧ m1.2 = m2.2.

(** Every event of a computation satisfies [P]. *)
Definition only {A} (P : Event → Prop) (m : Run A) : Prop := Forall P m.1.

(** The relative factors the scan holds are never at most zero. *)
Definition scales_checked (o : Options) : Prop :=
  nonpositive (o_XREL o) = false ∧ nonpositive (o_YREL o) = false.



(** [argv[i][0] == '-']: the argument is scanned as an option. *)
Definition is_option (arg : string) : bool := Ascii.eqb (char_at arg 0) "-".

(** The elements of [argv] that are not options, in order. *)
Definition arguments (args : list string) : list string :=
  List.filter (λ arg, negb (is_option arg)) args.

(** [case 'P']: the argument is an option with letter [P]. *)
Definition is_P (arg : string) : bool :=
  is_option arg && Ascii.eqb (char_at arg 1) "P".

(** What [if (VERBOSE) fprintf(stderr,...)] writes. *)
Definition report (verbose : Z) (text : string) : list Event :=
  if verbose =? 0 then [] else [Stderr text].

(** The name of the reads table [main] gives to [check_table]. *)
Definition reads_table `{L : LibFastK} (c : Config) : string :=
  Catenate (Root (READS c) ".ktab") ".ktab" EmptyString EmptyString.

(** The events of building the table of one assembly, and of a run in which
    nothing goes wrong: the reads table is opened, the tables are built,
    [asm_plot] is called, the tables are removed. *)
Definition build (c : Config) (KMER : Z) (name : string) : list Event :=
  report (VERBOSE c) (nl +:+ "  Making k-mer table for assembly " +:+ name +:+ nl)
  ++ [System (fastk_command KMER (NTHREADS c) (SORT_PATH c) name)].

Definition plot_arguments `{L : LibFastK} (w : World) (c : Config)
    (first : string) (second : option string) : PlotArgs :=
  mkPlotArgs (OUT c) first second (Root (READS c) ".ktab") (XDIM c) (YDIM c)
    (XREL c) (YREL c) (XMAX c) (YMAX c) (PDF c) (ZGRAM c) (LINE c) (FILL c)
    (STACK c) (mktemp w template) (NTHREADS c).

Definition complete_trace `{L : LibFastK} (w : World) (c : Config) (KMER : Z)
    (first : string) (second : option string) : list Event :=
  Fopen (reads_table c)
  :: build c KMER first
  ++ match second with Some name => build c KMER name | None => [] end
  ++ report (VERBOSE c) (nl +:+ "  Making Venn histograms and plotting" +:+ nl)
  ++ AsmPlot (plot_arguments w c first second)
  :: System (fastrm_command first)
  :: match second with Some name => [System (fastrm_command name)] | None => [] end.

(** The command for FastK fits the buffer [command]. *)
Definition fits (c : Config) (KMER : Z) (name : string) : Prop :=
  Z.of_nat (String.length (fastk_command KMER (NTHREADS c) (SORT_PATH c) name)) < 5000.

(* ===================================================================== *)
(** * The engine behind [asm_plot]

    [asm_plotter.c] is not part of this development: the merge classifier,
    the histogram accumulator and the scale resolver below follow the
    specification (sections 3 and 4). *)
(* ===================================================================== *)

Module Engine.

(** Modelled from the spec: [asm_plotter.c] is missing; a KmerValue is an
    opaque, totally ordered, fixed-width key, here the number that encodes
    the k-mer. *)
Abbreviation KmerValue := N.

(** Modelled from the spec: [asm_plotter.c] is missing; what a Table Stream
    Reader produces, a finite sequence of (KmerValue, Multiplicity) pairs. *)
Abbreviation Stream := (list (N * nat)).

(** Modelled from the spec: [asm_plotter.c] is missing; the contract of a
    Table Stream Reader, keys strictly increasing (so no key twice). *)
Definition increasing (s : Stream) : Prop := StronglySorted N.lt (fst <$> s).

(** Modelled from the spec: [asm_plotter.c] is missing; the membership
    categories for one assembly (ReadsOnly, AssemblyOnly, Shared) and for two
    (the seven-way partition; ReadsOnly belongs to both). *)
Inductive MembershipCategory :=
| ReadsOnly | AssemblyOnly | Shared
| Asm1Only | Asm2Only | ReadsAndAsm1 | ReadsAndAsm2 | Asm1AndAsm2 | AllThree.

(** Modelled from the spec: [asm_plotter.c] is missing; the categories in a
    fixed order, the one sums across categories are taken in. *)
Definition all_categories : list MembershipCategory :=
  [ReadsOnly; AssemblyOnly; Shared;
   Asm1Only; Asm2Only; ReadsAndAsm1; ReadsAndAsm2; Asm1AndAsm2; AllThree].

(** The position of a category in [all_categories]. *)
Definition category_index (c : MembershipCategory) : nat :=
  match c with
  | ReadsOnly => 0 | AssemblyOnly => 1 | Shared => 2
  | Asm1Only => 3 | Asm2Only => 4 | ReadsAndAsm1 => 5
  | ReadsAndAsm2 => 6 | Asm1AndAsm2 => 7 | AllThree => 8
  end%nat.

#[global] Instance category_eq_dec : EqDecision MembershipCategory.
Proof. solve_decision. Defined.

#[global] Instance category_countable : Countable MembershipCategory.
Proof.
  apply (inj_countable' category_index (λ n, nth n all_categories ReadsOnly)).
  intros []; reflexivity.
Defined.

(** Modelled from the spec: [asm_plotter.c] is missing; the category is
    derived from the membership bitmask (in-reads, in-asm1, in-asm2), the
    reads stream first.  A mask with no member has no category. *)
Definition classify (mask : list bool) : option MembershipCategory :=
  match mask with
  | [true] => Some ReadsOnly
  | [true; false] => Some ReadsOnly
  | [false; true] => Some AssemblyOnly
  | [true; true] => Some Shared
  | [true; false; false] => Some ReadsOnly
  | [false; true; false] => Some Asm1Only
  | [false; false; true] => Some Asm2Only
  | [true; true; false] => Some ReadsAndAsm1
  | [true; false; true] => Some ReadsAndAsm2
  | [false; true; true] => Some Asm1AndAsm2
  | [true; true; true] => Some AllThree
  | _ => None
  end.

(** Modelled from the spec: [asm_plotter.c] is missing; the current key of a
    stream, if the stream is not exhausted. *)
Definition current (s : Stream) : option KmerValue := fst <$> head s.

(** Modelled from the spec: [asm_plotter.c] is missing; the smallest current
    key across all open streams. *)
Fixpoint min_key (streams : list Stream) : option KmerValue :=
  match streams with
  | [] => None
  | s :: rest =>
      match current s, min_key rest with
      | Some k, Some m => Some (N.min k m)
      | Some k, None => Some k
      | None, r => r
      end
  end.

(** Modelled from the spec: [asm_plotter.c] is missing; a stream holds the
    key [m] when its current key is exactly [m]. *)
Definition at_key (m : KmerValue) (s : Stream) : bool :=
  match current s with
  | Some k => N.eqb k m
  | None => false
  end.

(** Modelled from the spec: [asm_plotter.c] is missing; each matching stream
    advances by one, the others stay. *)
Definition advance (m : KmerValue) (s : Stream) : Stream :=
  if at_key m s then tail s else s.

(** Modelled from the spec: [asm_plotter.c] is missing; the multiplicity of an
    observation is the reads stream's count if the key is there, and
    otherwise the absent-from-reads value, which falls in bin 0. *)
Definition reads_multiplicity (m : KmerValue) (streams : list Stream) : nat :=
  match streams with
  | ((k, count) :: _) :: _ => if N.eqb k m then count else 0%nat
  | _ => 0%nat
  end.

(** Modelled from the spec: [asm_plotter.c] is missing; one observation per
    merged key: the key, its multiplicity in the reads, and its category. *)
Record Observation := mkObservation {
  ob_key : KmerValue;
  ob_multiplicity : nat;
  ob_category : option MembershipCategory;
}.

(** Modelled from the spec: [asm_plotter.c] is missing; the observation for
    the smallest current key [m]: the mask tells which streams are at [m]. *)
Definition observe (m : KmerValue) (streams : list Stream) : Observation :=
  {| ob_key := m;
     ob_multiplicity := reads_multiplicity m streams;
     ob_category := classify (at_key m <$> streams) |}.

(** The number of pairs the streams still hold: it drops at every step of
    the merge. *)
Definition remaining (streams : list Stream) : nat :=
  sum_list (length <$> streams).

Lemma min_key_at_key (streams : list Stream) (m : KmerValue) :
  min_key streams = Some m → ∃ s, s ∈ streams ∧ at_key m s = true.
Proof.
  revert m. induction streams as [|s rest IH]; intros m; simpl; [discriminate|].
  unfold at_key. destruct (current s) as [k|] eqn:Hk.
  - destruct (min_key rest) as [m'|] eqn:Hm; intros [= <-].
    + destruct (N.min_spec k m') as [[_ ->]|[_ ->]].
      * exists s. rewrite Hk, N.eqb_refl. split; [left|done].
      * destruct (IH m' eq_refl) as (s' & Hin & Hat).
        exists s'. split; [by right|done].
    + exists s. rewrite Hk, N.eqb_refl. split; [left|done].
  - intros Hm. destruct (IH m Hm) as (s' & Hin & Hat).
    exists s'. split; [by right|done].
Qed.

Lemma advance_length (m : KmerValue) (s : Stream) :
  (length (advance m s) ≤ length s)%nat.
Proof. unfold advance. destruct (at_key m s), s; simpl; lia. Qed.

Lemma advance_at_key_length (m : KmerValue) (s : Stream) :
  at_key m s = true → (length (advance m s) < length s)%nat.
Proof.
  unfold advance. intros H. rewrite H.
  destruct s; [discriminate|simpl; lia].
Qed.

Lemma remaining_advance (streams : list Stream) (m : KmerValue) :
  min_key streams = Some m →
  (remaining (advance m <$> streams) < remaining streams)%nat.
Proof.
  intros Hm. destruct (min_key_at_key _ _ Hm) as (s & Hin & Hat).
  clear Hm. unfold remaining.
  induction streams as [|s0 rest IH]; [by apply elem_of_nil in Hin|].
  csimpl. pose proof (advance_length m s0).
  assert (sum_list (length <$> (advance m <$> rest)) ≤ sum_list (length <$> rest))%nat.
  { clear. induction rest as [|x r IHr]; csimpl; [lia|].
    pose proof (advance_length m x). lia. }
  apply elem_of_cons in Hin as [->|Hin].
  - pose proof (advance_at_key_length _ _ Hat). lia.
  - specialize (IH Hin). lia.
Qed.

(** Modelled from the spec: [asm_plotter.c] is missing; the k-way merge: at
    each step the smallest current key is found, one observation is emitted
    for it, and the streams that hold it advance; the merge ends when all
    streams are exhausted. *)
Equations merge (streams : list Stream) : list Observation
  by wf (remaining streams) lt :=
  merge streams with Equations.Prop.Logic.inspect (min_key streams) => {
    | exist _ None _ := [];
    | exist _ (Some m) Hm := observe m streams :: merge (advance m <$> streams) }.
Next Obligation. intros streams m Hm _. by apply remaining_advance. Qed.

(** Modelled from the spec: [asm_plotter.c] is missing; the HistogramMatrix
    maps (multiplicity bin, category) to a count of distinct k-mers; a cell
    that was never recorded counts zero. *)
Abbreviation HistogramMatrix := (gmap (nat * MembershipCategory) nat).

(** Modelled from the spec: [asm_plotter.c] is missing; clamp(multiplicity,
    0, CAP): values above the cap fold into the last bin. *)
Definition clamp (CAP multiplicity : nat) : nat := (multiplicity `min` CAP)%nat.

(** Modelled from the spec: [asm_plotter.c] is missing; [record] increments
    the cell (clamp(multiplicity, 0, CAP), category) by one. *)
Definition record (CAP multiplicity : nat) (category : MembershipCategory)
    (h : HistogramMatrix) : HistogramMatrix :=
  let cell := (clamp CAP multiplicity, category) in
  <[cell := S (h !!! cell)]> h.

(** Modelled from the spec: [asm_plotter.c] is missing; the accumulator
    takes the observations one by one; an observation without a category
    has no cell to go to. *)
Definition record_observation (CAP : nat) (h : HistogramMatrix) (ob : Observation) :
    HistogramMatrix :=
  match ob_category ob with
  | Some c => record CAP (ob_multiplicity ob) c h
  | None => h
  end.

(** Modelled from the spec: [asm_plotter.c] is missing; the accumulator
    starts empty and records every observation of the merge. *)
Definition accumulate (CAP : nat) (obs : list Observation) : HistogramMatrix :=
  foldl (record_observation CAP) ∅ obs.

(** Modelled from the spec: [asm_plotter.c] is missing; the histogram of a
    run is the merge fully drained into one accumulator. *)
Definition histogram (CAP : nat) (streams : list Stream) : HistogramMatrix :=
  accumulate CAP (merge streams).

(** Modelled from the spec: [asm_plotter.c] is missing; the sum of the
    counts over all cells of the histogram. *)
Definition total (h : HistogramMatrix) : nat :=
  map_fold (λ _ count acc, count + acc)%nat 0%nat h.

(** Modelled from the spec: [asm_plotter.c] is missing; the count of one
    multiplicity bin summed across all categories. *)
Definition aggregate (h : HistogramMatrix) (bin : nat) : nat :=
  sum_list ((λ c, h !!! (bin, c)) <$> all_categories).

(** Modelled from the spec: [asm_plotter.c] is missing; the set of keys of
    one input table. *)
Definition stream_keys (s : Stream) : gset N := list_to_set (fst <$> s).

(** Modelled from the spec: [asm_plotter.c] is missing; the set of keys of
    the union of all input tables. *)
Definition keys (streams : list Stream) : gset N :=
  ⋃ (stream_keys <$> streams).

(** Modelled from the spec: [asm_plotter.c] is missing; one step of the
    search for the peak: a bin replaces the best so far when its aggregated
    count is larger. *)
Definition better (h : HistogramMatrix) (best : nat * nat) (bin : nat) : nat * nat :=
  if (snd best <? aggregate h bin)%nat then (bin, aggregate h bin) else best.

(** Modelled from the spec: [asm_plotter.c] is missing; the aggregate peak
    excluding bin 0 and the lowest [skip] bins: the bin among
    [skip+1 .. CAP] with the largest aggregated count (the lowest such bin),
    and that count; (0, 0) when every candidate bin is empty. *)
Definition peak (skip CAP : nat) (h : HistogramMatrix) : nat * nat :=
  foldl (better h) (0, 0)%nat (seq (S skip) (CAP - skip)).

(** Modelled from the spec: [asm_plotter.c] is missing; the inputs of the
    Scale Resolver, optional absolute maxima and the relative multipliers. *)
Record ScaleRequest := mkScaleRequest {
  xAbsoluteMax : option Z;
  yAbsoluteMax : option Z;
  xRelativeFactor : Q;
  yRelativeFactor : Q;
}.

(** Modelled from the spec: [asm_plotter.c] is missing; the resolved pair of
    axis maxima. *)
Record ScaleSpec := mkScaleSpec {
  xMax : Z;
  yMax : Z;
}.

(** Modelled from the spec: [asm_plotter.c] is missing; the policy for one
    axis: an absolute maximum is used verbatim; otherwise the maximum is
    ceil(rel × peak); a peak of zero falls back to the minimum extent. *)
Definition resolve_axis (minimum_extent : Z) (absolute : option Z) (rel : Q)
    (peak_value : nat) : Z :=
  match absolute with
  | Some a => a
  | None =>
      if (peak_value =? 0)%nat then minimum_extent
      else Qceiling (rel * inject_Z (Z.of_nat peak_value))
  end.

(** Modelled from the spec: [asm_plotter.c] is missing; x is resolved from
    the peak position and y, symmetrically, from the peak's count. *)
Definition resolve (minimum_extent : Z) (req : ScaleRequest) (pk : nat * nat) : ScaleSpec :=
  {| xMax := resolve_axis minimum_extent (xAbsoluteMax req) (xRelativeFactor req) (fst pk);
     yMax := resolve_axis minimum_extent (yAbsoluteMax req) (yRelativeFactor req) (snd pk) |}.

(** Modelled from the spec: [asm_plotter.c] is missing; a request as
    configuration parsing lets it through: relative factors above zero, and
    absolute maxima, where given, above zero. *)
Definition valid_request (req : ScaleRequest) : Prop :=
  (0 < xRelativeFactor req)%Q ∧ (0 < yRelativeFactor req)%Q ∧
  (∀ a, xAbsoluteMax req = Some a → 0 < a) ∧
  (∀ a, yAbsoluteMax req = Some a → 0 < a).

(** How [main] hands an absolute maximum to [asm_plot]: [XMAX] and [YMAX]
    start at 0 and are only assigned by [ARG_POSITIVE], so 0 stands for an
    option that was not given. *)
Definition absolute_limit (v : Z) : option Z :=
  if v =? 0 then None else Some v.

End Engine.

(* ===================================================================== *)
(** * An instance of the libfastk interface

    Enough of [libfastk] to run the driver on examples: flags are single
    letters set to 1, numbers are decimal integers, [Root] drops a suffix
    that is there and [Catenate] joins its four arguments. *)
(* ===================================================================== *)

Module Sample.

Definition digit (c : ascii) : option Z :=
  let n := Z.of_N (N_of_ascii c) in
  if (48 <=? n) && (n <=? 57) then Some (n - 48) else None.

Fixpoint digits (acc : Z) (s : string) : option Z :=
  match s with
  | EmptyString => Some acc
  | String c r => digit c ≫= λ d, digits (10 * acc + d) r
  end.

Definition integer (s : string) : option Z :=
  match s with
  | EmptyString => None
  | String c r =>
      if Ascii.eqb c "-"
      then (if String.eqb r EmptyString then None else Z.opp <$> digits 0 r)
      else digits 0 s
  end.

Definition float_of_Z (z : Z) : float :=
  if z <? 0 then PrimFloat.opp (PrimFloat.of_uint63 (Uint63.of_Z (- z)))
  else PrimFloat.of_uint63 (Uint63.of_Z z).

Fixpoint contains (set : string) (c : ascii) : bool :=
  match set with
  | EmptyString => false
  | String d r => Ascii.eqb c d || contains r c
  end.

Fixpoint set_flags (set letters : string) (flags : ascii → Z) : Res string (ascii → Z) :=
  match letters with
  | EmptyString => Ok flags
  | String c r =>
      if contains set c
      then set_flags set r (λ d, if Ascii.eqb d c then 1 else flags d)
      else Err ("ASMpLot: -" +:+ String c " is an illegal option" +:+ nl)
  end.

Fixpoint drop_suffix (name suf : string) : string :=
  match name with
  | EmptyString => EmptyString
  | String c r => if String.eqb name suf then EmptyString else String c (drop_suffix r suf)
  end.

#[export] Instance libfastk : LibFastK := {|
  ARG_INIT name := (name, λ _, 0);
  ARG_FLAGS set arg flags :=
    match arg with
    | String _ letters => set_flags set letters flags
    | EmptyString => Ok flags
    end;
  ARG_REAL arg :=
    match integer (after_letter arg) with
    | Some z => Ok (float_of_Z z)
    | None => Err ("ASMpLot: '" +:+ after_letter arg +:+ "' argument is not a real number" +:+ nl)
    end;
  ARG_POSITIVE arg what :=
    match integer (after_letter arg) with
    | Some z =>
        if z <=? 0
        then Err ("ASMpLot: " +:+ what +:+ " must be positive (" +:+ pretty z +:+ ")" +:+ nl)
        else Ok z
    | None => Err ("ASMpLot: '" +:+ after_letter arg +:+ "' argument is not an integer" +:+ nl)
    end;
  Root name suf := drop_suffix name suf;
  Catenate a b c d := a +:+ b +:+ c +:+ d;
|}.

(** The same instance with an [ARG_REAL] that reads every number as a NaN,
    as [strtod] does for the text [nan]. *)
Definition libfastk_nan : LibFastK := {|
  ARG_INIT := @ARG_INIT libfastk;
  ARG_FLAGS := @ARG_FLAGS libfastk;
  ARG_REAL _ := Ok PrimFloat.nan;
  ARG_POSITIVE := @ARG_POSITIVE libfastk;
  Root := @Root libfastk;
  Catenate := @Catenate libfastk;
|}.

(** A world with one table, [reads.ktab], built for k = 21. *)
Definition world : World :=
  {| fopen name :=
       if String.eqb name "reads.ktab"
       then Some [Byte.x15; Byte.x00; Byte.x00; Byte.x00; Byte.x2a]
       else None;
     mktemp _ := "._ASM.a1b2";
     indeterminate := 0 |}.

(** The same, but the reads table holds one byte only, and the
    uninitialised [kmer] of [check_table] happens to hold 0x11223344. *)
Definition short_world : World :=
  {| fopen name := if String.eqb name "reads.ktab" then Some [Byte.x15] else None;
     mktemp _ := "._ASM.a1b2";
     indeterminate := 287454020 |}.



(** A path of 4990 characters for [-P]. *)
Definition long_path : string := string_of_list_ascii (repeat "p"%char 4990).

(** The tables of the scenario with one assembly: keys 1 < 2 < 3 < 4. *)
Definition reads : Engine.Stream := [(1%N, 5%nat); (2%N, 12%nat); (3%N, 40%nat)].

Definition assembly : Engine.Stream := [(2%N, 1%nat); (3%N, 1%nat); (4%N, 1%nat)].

End Sample.

(* ===================================================================== *)
(** * Properties of the extension-stripping loop *)
(* ===================================================================== *)

Import Engine.

Lemma int_wrap_small (x : Z) : - 2 ^ 31 ≤ x < 2 ^ 31 → int_wrap x = x.
Proof.
  intros Hx. unfold int_wrap.
  destruct (Z.ltb_spec (x mod 2 ^ 32) (2 ^ 31)) as [Hlt|Hge].
  - destruct (Z.lt_ge_cases x 0) as [Hneg|Hpos].
    + rewrite <- (Z.mod_add x 1 (2 ^ 32)) in Hlt by lia.
      rewrite Z.mod_small in Hlt by lia. lia.
    + apply Z.mod_small. lia.
  - destruct (Z.lt_ge_cases x 0) as [Hneg|Hpos].
    + rewrite <- (Z.mod_add x 1 (2 ^ 32)) by lia.
      rewrite Z.mod_small by lia. lia.
    + rewrite Z.mod_small in Hge by lia. lia.
Qed.

(** The difference of two lengths below 2^31 is the mathematical one. *)
Lemma length_difference (a b : Z) :
  0 ≤ a < 2 ^ 31 → 0 ≤ b < 2 ^ 31 → int_wrap (size_t_sub a b) = a - b.
Proof.
  intros Ha Hb. unfold size_t_sub, int_wrap.
  replace (((a - b) mod 2 ^ 64) mod 2 ^ 32) with ((a - b) mod 2 ^ 32).
  - apply int_wrap_small. lia.
  - symmetry. apply Z.mod_mod_divide. exists (2 ^ 32). reflexivity.
Qed.

Lemma load_middle (pre post : list ascii) (c : ascii) :
  load (pre ++ c :: post) (Z.of_nat (length pre)) = Ok c.
Proof.
  unfold load. destruct (Z.ltb_spec (Z.of_nat (length pre)) 0); [lia|].
  rewrite Nat2Z.id, list_lookup_middle by done. reflexivity.
Qed.

Lemma load_negative (b : list ascii) (i : Z) :
  i < 0 → load b i = Faulty (OutOfBoundsRead i).
Proof. intros Hi. unfold load. destruct (Z.ltb_spec i 0); [reflexivity|lia]. Qed.

(** [strlen] finds the first NUL of the array. *)
Lemma strlen_from_chars (l pre post : list ascii) (fuel : nat) :
  Forall (λ c, c ≠ NUL) l → (length l < fuel)%nat →
  strlen_from fuel (pre ++ l ++ NUL :: post) (Z.of_nat (length pre))
  = Ok (Z.of_nat (length l)).
Proof.
  revert pre fuel. induction l as [|c l IH]; intros pre fuel Hl Hf;
    (destruct fuel as [|fuel]; [simpl in Hf; lia|]).
  - simpl. rewrite load_middle. reflexivity.
  - apply Forall_cons in Hl as [Hc Hl]. simpl strlen_from.
    change (pre ++ (c :: l) ++ NUL :: post) with (pre ++ c :: (l ++ NUL :: post)).
    rewrite load_middle. simpl.
    destruct (Ascii.eqb_spec c NUL) as [|_]; [done|].
    replace (Z.of_nat (length pre) + 1) with (Z.of_nat (length (pre ++ [c])))
      by (rewrite length_app; simpl; lia).
    replace (pre ++ c :: l ++ NUL :: post) with ((pre ++ [c]) ++ l ++ NUL :: post)
      by (rewrite <- app_assoc; reflexivity).
    rewrite IH; [|done|simpl in Hf; lia]. simpl. f_equal. lia.
Qed.

Lemma length_list_ascii_of_string (s : string) :
  length (list_ascii_of_string s) = String.length s.
Proof. induction s as [|c s IH]; simpl; [reflexivity|by rewrite IH]. Qed.

Lemma strlen_c_array (name : string) :
  Forall (λ c, c ≠ NUL) (list_ascii_of_string name) →
  strlen (c_array name) = Ok (Z.of_nat (String.length name)).
Proof.
  intros Hname. unfold strlen, c_array.
  rewrite <- length_list_ascii_of_string.
  apply (strlen_from_chars (list_ascii_of_string name) [] []); [done|].
  rewrite length_app. simpl. lia.
Qed.

Lemma strcmp_eq_negative (b : list ascii) (i : Z) (s : string) :
  i < 0 → strcmp_eq b i s = Faulty (OutOfBoundsRead i).
Proof. intros Hi. destruct s; simpl; rewrite load_negative by done; reflexivity. Qed.

(** A turn of the loop for a suffix longer than the name reads before the
    start of the array. *)
Lemma strip_suffix_short (b : list ascii) (suf : string) (n : Z) :
  strlen b = Ok n → 0 ≤ n < Z.of_nat (String.length suf) →
  Z.of_nat (String.length suf) < 2 ^ 31 →
  strip_suffix b suf
  = Faulty (OutOfBoundsRead (n - Z.of_nat (String.length suf))).
Proof.
  intros Hn Hshort Hsuf. unfold strip_suffix. rewrite Hn.
  change (Ok n ≫= ?k) with (k n). cbv beta zeta.
  rewrite length_difference by lia.
  rewrite strcmp_eq_negative by lia. reflexivity.
Qed.

(** Every argument of fewer than three characters sends the first turn of
    the loop, the one for [.gz], before the start of the argument. *)
Lemma short_name_faults (name : string) :
  Forall (λ c, c ≠ NUL) (list_ascii_of_string name) →
  (String.length name < 3)%nat →
  strip_extensions name
  = Faulty (OutOfBoundsRead (Z.of_nat (String.length name) - 3)).
Proof.
  intros Hname Hshort. unfold strip_extensions, suffix.
  cbn [strip_suffixes].
  rewrite (strip_suffix_short (c_array name) ".gz" _ (strlen_c_array name Hname));
    [reflexivity|simpl; lia|simpl; lia].
Qed.

(** [strcmp] inside the array: the comparison of the rest of the name
    with the suffix. *)
Lemma strcmp_eq_inside (suf : string) (l post : list ascii) (i : nat) :
  Forall (λ c, c ≠ NUL) l → Forall (λ c, c ≠ NUL) (list_ascii_of_string suf) →
  (i ≤ length l)%nat →
  strcmp_eq (l ++ NUL :: post) (Z.of_nat i) suf
  = Ok (bool_decide (drop i l = list_ascii_of_string suf)).
Proof.
  intros Hl. revert i. induction suf as [|d suf IH]; intros i Hsuf Hi.
  - simpl strcmp_eq.
    destruct (decide (i = length l)) as [->|Hne].
    + rewrite load_middle. rewrite drop_all. reflexivity.
    + destruct (lookup_lt_is_Some_2 l i) as [c Hc]; [lia|].
      rewrite <- (take_drop_middle l i c Hc) at 1.
      rewrite <- app_assoc. simpl.
      replace (Z.of_nat i) with (Z.of_nat (length (take i l)))
        by (rewrite length_take; lia).
      rewrite load_middle.
      assert (c ≠ NUL) as Hcn.
      { rewrite Forall_forall in Hl. apply Hl. by eapply list_elem_of_lookup_2. }
      change (Ok c ≫= ?k) with (k c). cbv beta.
      destruct (Ascii.eqb_spec c NUL) as [|_]; [done|].
      rewrite (drop_S l c i Hc). reflexivity.
  - simpl in Hsuf. apply Forall_cons in Hsuf as [Hd Hsuf].
    simpl strcmp_eq.
    destruct (decide (i = length l)) as [->|Hne].
    + rewrite load_middle. change (Ok NUL ≫= ?k) with (k NUL). cbv beta.
      destruct (Ascii.eqb_spec NUL d) as [<-|_]; [done|].
      rewrite drop_all. reflexivity.
    + destruct (lookup_lt_is_Some_2 l i) as [c Hc]; [lia|].
      rewrite <- (take_drop_middle l i c Hc) at 1.
      rewrite <- app_assoc. simpl.
      replace (Z.of_nat i) with (Z.of_nat (length (take i l))) at 1
        by (rewrite length_take; lia).
      rewrite load_middle. change (Ok c ≫= ?k) with (k c). cbv beta.
      rewrite (drop_S l c i Hc).
      destruct (Ascii.eqb_spec c d) as [->|Hcd].
      * replace (take i l ++ d :: drop (S i) l ++ NUL :: post)
          with (l ++ NUL :: post).
        2:{ rewrite <- (take_drop_middle l i d Hc) at 1.
            by rewrite <- app_assoc. }
        replace (Z.of_nat i + 1) with (Z.of_nat (S i)) by lia.
        rewrite IH; [|done|lia]. f_equal.
        apply bool_decide_ext. split; [by intros ->|by intros [= ->]].
      * f_equal. symmetry. apply bool_decide_eq_false. by intros [= ->].
Qed.

Lemma strip_suffix_inside (l post : list ascii) (suf : string) :
  Forall (λ c, c ≠ NUL) l → Forall (λ c, c ≠ NUL) (list_ascii_of_string suf) →
  (String.length suf ≤ length l)%nat → Z.of_nat (length l) < 2 ^ 31 →
  ∃ post', strip_suffix (l ++ NUL :: post) suf
           = Ok (drop_extension l suf ++ NUL :: post').
Proof.
  intros Hl Hsuf Hlen Hint. unfold strip_suffix, strlen.
  rewrite (strlen_from_chars l [] post) by (rewrite ?length_app; simpl; lia || done).
  change (Ok ?n ≫= ?k) with (k n). cbv beta zeta.
  rewrite length_difference by lia.
  replace (Z.of_nat (length l) - Z.of_nat (String.length suf))
    with (Z.of_nat (length l - String.length suf)) by lia.
  rewrite strcmp_eq_inside by (done || lia).
  change (Ok ?n ≫= ?k) with (k n). cbv beta.
  unfold drop_extension. cbv zeta. rewrite length_list_ascii_of_string.
  destruct (bool_decide (drop (length l - String.length suf) l
                         = list_ascii_of_string suf)).
  - rewrite Nat2Z.id. eexists. f_equal.
    rewrite insert_take_drop by (rewrite length_app; simpl; lia).
    rewrite take_app_le by lia. reflexivity.
  - by eexists.
Qed.

Lemma drop_extension_length (l : list ascii) (suf : string) :
  (length (drop_extension l suf) ≤ length l)%nat.
Proof.
  unfold drop_extension. cbv zeta. case_bool_decide; [|done].
  rewrite length_take. lia.
Qed.

Lemma drop_extension_chars (l : list ascii) (suf : string) :
  Forall (λ c, c ≠ NUL) l → Forall (λ c, c ≠ NUL) (drop_extension l suf).
Proof.
  unfold drop_extension. cbv zeta. case_bool_decide; [|done].
  apply Forall_take.
Qed.

Lemma foldl_drop_extension_length (sufs : list string) (l : list ascii) :
  (length (foldl drop_extension l sufs) ≤ length l)%nat.
Proof.
  revert l. induction sufs as [|suf sufs IH]; intros l; simpl; [done|].
  etrans; [apply IH|apply drop_extension_length].
Qed.

Lemma strip_suffixes_inside (sufs : list string) (l post : list ascii) :
  Forall (λ c, c ≠ NUL) l →
  Forall (λ suf, Forall (λ c, c ≠ NUL) (list_ascii_of_string suf)) sufs →
  Forall (λ suf, String.length suf ≤ length (foldl drop_extension l sufs))%nat sufs →
  Z.of_nat (length l) < 2 ^ 31 →
  ∃ post', strip_suffixes (l ++ NUL :: post) sufs
           = Ok (foldl drop_extension l sufs ++ NUL :: post').
Proof.
  revert l post. induction sufs as [|suf sufs IH]; intros l post Hl Hsufs Hlen Hint.
  - by eexists.
  - apply Forall_cons in Hsufs as [Hsuf Hsufs].
    apply Forall_cons in Hlen as [Hlen1 Hlen].
    simpl in *.
    pose proof (foldl_drop_extension_length sufs (drop_extension l suf)) as H1.
    pose proof (drop_extension_length l suf) as H2.
    destruct (strip_suffix_inside l post suf Hl Hsuf) as [post1 ->]; [lia|done|].
    change (Ok ?n ≫= ?k) with (k n). cbv beta.
    apply IH; [by apply drop_extension_chars|done|done|lia].
Qed.

Lemma c_string_chars (l post : list ascii) :
  Forall (λ c, c ≠ NUL) l → c_string (l ++ NUL :: post) = string_of_list_ascii l.
Proof.
  induction 1 as [|c l Hc Hl IH]; simpl; [reflexivity|].
  destruct (Ascii.eqb_spec c NUL) as [|_]; [done|]. by rewrite IH.
Qed.

Lemma length_string_of_list_ascii (l : list ascii) :
  String.length (string_of_list_ascii l) = length l.
Proof. induction l as [|c l IH]; simpl; [reflexivity|by rewrite IH]. Qed.

Lemma foldl_drop_extension_chars (sufs : list string) (l : list ascii) :
  Forall (λ c, c ≠ NUL) l → Forall (λ c, c ≠ NUL) (foldl drop_extension l sufs).
Proof.
  revert l. induction sufs as [|suf sufs IH]; intros l Hl; simpl; [done|].
  apply IH. by apply drop_extension_chars.
Qed.

Lemma suffix_chars :
  Forall (λ suf, Forall (λ c, c ≠ NUL) (list_ascii_of_string suf)) suffix.
Proof.
  unfold suffix.
  repeat (apply Forall_cons_2;
          [simpl; repeat (apply Forall_cons_2; [discriminate|]); apply Forall_nil_2|]).
  apply Forall_nil_2.
Qed.

Lemma suffix_lengths (n : nat) :
  (6 ≤ n)%nat → Forall (λ suf, String.length suf ≤ n)%nat suffix.
Proof.
  intros Hn. unfold suffix.
  repeat (apply Forall_cons_2; [simpl String.length; lia|]). apply Forall_nil_2.
Qed.

(** A name whose stripped form keeps six characters or more is stripped
    without a read outside the argument, and what is left in [ASM[i]] is
    the name without the suffixes, as intended. *)
Lemma long_names_are_stripped_in_bounds (name : string) :
  Forall (λ c, c ≠ NUL) (list_ascii_of_string name) →
  Z.of_nat (String.length name) < 2 ^ 31 →
  (6 ≤ String.length (stripped name))%nat →
  strip_extensions name = Ok (stripped name).
Proof.
  intros Hname Hint Hlong.
  rewrite length_string_of_list_ascii in Hlong.
  rewrite <- length_list_ascii_of_string in Hint.
  destruct (strip_suffixes_inside suffix (list_ascii_of_string name) [] Hname
              suffix_chars (suffix_lengths _ Hlong) Hint)
    as [post' Hpost].
  unfold strip_extensions, c_array. rewrite Hpost.
  change (Ok ?n ≫= ?k) with (k n). cbv beta.
  rewrite c_string_chars by (by apply foldl_drop_extension_chars).
  reflexivity.
Qed.

(** C10: the extension-stripping loop does not stay inside its argument.
    For the name [a] the first turn computes [len = 1 - 3 = -2] and
    [strcmp] reads [ASM[i][-2]], so the run of [main] leaves defined
    behaviour right after the reads table was opened; for [asm.fasta.gz] the
    loop strips [.gz] and [.fasta], is left with [asm], and the turn for
    [.fastq] reads [ASM[i][-3]].  A name that stays at least as long as the
    suffixes, such as [assembly.fasta], is stripped within bounds. *)
Theorem strip_extensions_reads_before_the_argument :
  strip_extensions "a" = Faulty (OutOfBoundsRead (-2)) ∧
  strip_extensions "asm.fasta.gz" = Faulty (OutOfBoundsRead (-3)) ∧
  strip_extensions "assembly.fasta" = Ok "assembly" ∧
  @main Sample.libfastk Sample.world ["ASMplot"; "reads"; "a"; "out"]
  = ([Fopen "reads.ktab"], Err (Undefined (OutOfBoundsRead (-2)))).
Proof. repeat split; vm_compute; reflexivity. Qed.

(* ===================================================================== *)
(** * Properties of runs *)
(* ===================================================================== *)

Lemma bind_trace {A B} (m : Run A) (k : A → Run B) :
  (m ≫= k).1 = (m.1 ++ match m.2 with Ok a => (k a).1 | Err _ => [] end)%list.
Proof.
  destruct m as [t [a|s]]; unfold mbind, run_mbind, run_bind; simpl.
  - destruct (k a); reflexivity.
  - symmetry. apply app_nil_r.
Qed.

Lemma bind_result {A B} (m : Run A) (k : A → Run B) :
  (m ≫= k).2 = match m.2 with Ok a => (k a).2 | Err s => Err s end.
Proof.
  destruct m as [t [a|s]]; unfold mbind, run_mbind, run_bind; simpl;
    [destruct (k a)|]; reflexivity.
Qed.

Lemma only_ret {A} P (a : A) : only P (run_ret a).
Proof. constructor. Qed.

Lemma only_stop {A} P s : only P (@stop A s).
Proof. constructor. Qed.

Lemma only_emit P e : P e → only P (emit e).
Proof. intros. repeat constructor; assumption. Qed.

Lemma only_bind {A B} P (m : Run A) (k : A → Run B) :
  only P m → (∀ a, m.2 = Ok a → only P (k a)) → only P (m ≫= k).
Proof.
  unfold only. intros Hm Hk. rewrite bind_trace. apply Forall_app. split; [done|].
  destruct (m.2) as [a|s] eqn:E; [by apply Hk|constructor].
Qed.

Lemma only_access {A} P (r : Access A) : only P (access r).
Proof. destruct r; constructor. Qed.

Lemma only_sprintf P text : only P (sprintf_command text).
Proof. unfold sprintf_command. case_match; constructor. Qed.

Lemma sprintf_result text r : (sprintf_command text).2 = Ok r → r = text.
Proof. unfold sprintf_command. case_match; simpl; congruence. Qed.

Lemma elem_of_plot_calls a t : a ∈ plot_calls t ↔ AsmPlot a ∈ t.
Proof.
  unfold plot_calls. rewrite list_elem_of_omap. split.
  - intros (e & He & Hx). destruct e; simplify_eq. done.
  - intros H. exists (AsmPlot a). done.
Qed.

Section DriverProperties.
Context `{L : LibFastK}.

Lemma scan_args_app (o : Options) (l1 l2 : list string) :
  scan_args o (l1 ++ l2) = scan_args o l1 ≫= λ o', scan_args o' l2.
Proof.
  revert o. induction l1 as [|a l1 IH]; intros o; simpl; [reflexivity|].
  destruct (scan_arg o a) as [o'|f]; simpl; [apply IH|reflexivity].
Qed.

(** An option [-x] or [-y] whose number is at most zero ends the scan. *)
Lemma scan_arg_invalid_scale (o : Options) (arg : string) (v : float) (axis : Axis) :
  scale_axis arg = Some axis → ARG_REAL arg = Ok v → nonpositive v = true →
  scan_arg o arg = Err (InvalidScale axis).
Proof.
  unfold scale_axis, scan_arg, scan_option. intros Hax Hv Hle.
  destruct o.
  destruct (Ascii.eqb (char_at arg 0) "-"); [|discriminate].
  destruct (Ascii.eqb (char_at arg 1) "x") eqn:Hx.
  - apply Ascii.eqb_eq in Hx. rewrite Hx. simpl.
    rewrite Hv. simpl. rewrite Hle. congruence.
  - destruct (Ascii.eqb (char_at arg 1) "y") eqn:Hy; [|discriminate].
    apply Ascii.eqb_eq in Hy. rewrite Hy. simpl.
    rewrite Hv. simpl. rewrite Hle. congruence.
Qed.

Lemma scan_arg_scales (o o' : Options) (arg : string) :
  scan_arg o arg = Ok o' → scales_checked o → scales_checked o'.
Proof.
  unfold scan_arg, scan_option, scales_checked, macro. destruct o. simpl.
  intros H [Hx Hy].
  repeat (case_match; simplify_eq/=); simpl; try done.
Qed.

Lemma scan_args_scales (l : list string) (o o' : Options) :
  scan_args o l = Ok o' → scales_checked o → scales_checked o'.
Proof.
  revert o. induction l as [|a l IH]; intros o; simpl.
  - by intros [= ->].
  - destruct (scan_arg o a) as [o1|f] eqn:E; simpl; [|discriminate].
    intros H Ho. eapply IH; [done|]. by eapply scan_arg_scales.
Qed.

(** The check is [XREL <= 0.]: a NaN, which is not above zero either, is
    let through. *)
Remark nan_passes_the_scale_check : nonpositive PrimFloat.nan = false.
Proof. reflexivity. Qed.

Lemma configure_fields (o : Options) (c : Config) :
  configure o = Ok c →
  XREL c = o_XREL o ∧ YREL c = o_YREL o ∧ XMAX c = o_XMAX o ∧ YMAX c = o_YMAX o ∧
  VERBOSE c = o_flags o "v"%char.
Proof.
  unfold configure. intros H.
  repeat (case_match; simplify_eq/=); done.
Qed.

(** C5: an option [-x] or [-y] with a number that is at most zero stops the
    program with the message of an invalid scale and [exit (1)], during the
    scan of the command line: the only event of the run is that message, so
    no table has been opened.  No invocation gets past the scan with a
    relative factor that is at most zero, and every failure of the scan
    ends the run before any other event. *)
Theorem invalid_scale_is_fatal (w : World) :
  (∀ argv0 before arg after o v axis,
     scan_args defaults before = Ok o →
     scale_axis arg = Some axis → ARG_REAL arg = Ok v → nonpositive v = true →
     main w (argv0 :: before ++ arg :: after)
     = ([Stderr (stderr_text Prog_Name (InvalidScale axis))], Err (Exit 1))) ∧
  (∀ argv c, parse_args argv = Ok c →
     nonpositive (XREL c) = false ∧ nonpositive (YREL c) = false) ∧
  (∀ argv f, parse_args argv = Err f →
     main w argv = ([Stderr (stderr_text Prog_Name f)], Err (Exit 1))).
Proof.
  split; [|split].
  - intros argv0 before arg after o v axis Ho Hax Hv Hle.
    unfold main, parse_args. simpl tail.
    rewrite scan_args_app, Ho. simpl.
    rewrite (scan_arg_invalid_scale o arg v axis Hax Hv Hle). reflexivity.
  - intros argv c. unfold parse_args.
    destruct (scan_args defaults (tail argv)) as [o|f] eqn:E; simpl; [|discriminate].
    intros Hc. destruct (configure_fields _ _ Hc) as (-> & -> & _).
    eapply scan_args_scales; [exact E|]. split; reflexivity.
  - intros argv f Hf. unfold main. rewrite Hf. reflexivity.
Qed.

(** ** The second block of [main] *)

Lemma check_table_run (w : World) (name : string) (lmer : Z) :
  check_table w name lmer =
  match fopen w name with
  | None =>
      ([Fopen name; Stderr (stderr_text Prog_Name (TableUnreadable name))],
       Err (Exit 1))
  | Some file =>
      let kmer := fread_int file (int_wrap (indeterminate w)) in
      if negb (lmer =? 0) && negb (kmer =? lmer)
      then ([Fopen name;
             Stderr (stderr_text Prog_Name (KmerLengthMismatch kmer name lmer))],
            Err (Exit 1))
      else ([Fopen name], Ok kmer)
  end.
Proof.
  unfold check_table. destruct (fopen w name) as [file|]; [|reflexivity].
  cbv zeta.
  destruct (negb (lmer =? 0) && negb (fread_int file (int_wrap (indeterminate w)) =? lmer));
    reflexivity.
Qed.

Lemma only_make_table P (c : Config) (KMER : Z) (asm : string) :
  (∀ text, P (Stderr text)) →
  (∀ name, P (System (fastk_command KMER (NTHREADS c) (SORT_PATH c) name))) →
  only P (make_table c KMER asm).
Proof.
  intros Herr Hsys. unfold make_table.
  apply only_bind; [apply only_access|]. intros name _.
  apply only_bind.
  { case_match; [apply only_ret|by apply only_emit]. }
  intros _ _. apply only_bind; [apply only_sprintf|].
  intros command Hc. apply sprintf_result in Hc as ->.
  apply only_bind; [by apply only_emit|]. intros; apply only_ret.
Qed.

Lemma only_remove_table P (asm : string) :
  P (System (fastrm_command asm)) → only P (remove_table asm).
Proof.
  intros H. unfold remove_table. apply only_bind; [apply only_sprintf|].
  intros command Hc. apply sprintf_result in Hc as ->. by apply only_emit.
Qed.

(** What the events of the second block can be, given the k-mer length
    [check_table] returns for the reads table. *)
Lemma only_run P (w : World) (c : Config) :
  P (Fopen (reads_table c)) →
  (∀ text, P (Stderr text)) →
  (∀ file name, fopen w (reads_table c) = Some file →
     P (System (fastk_command (fread_int file (int_wrap (indeterminate w)))
                  (NTHREADS c) (SORT_PATH c) name))) →
  (∀ name, P (System (fastrm_command name))) →
  (∀ a, p_LINE a = LINE c → p_FILL a = FILL c → p_STACK a = STACK c →
        p_XMAX a = XMAX c → p_YMAX a = YMAX c → P (AsmPlot a)) →
  only P (run w c).
Proof.
  intros Hopen Herr Hfastk Hfastrm Hplot. unfold run.
  apply only_bind.
  { fold (reads_table c). rewrite check_table_run.
    destruct (fopen w (reads_table c)); simpl; repeat constructor; auto. }
  intros KMER HK. fold (reads_table c) in HK. rewrite check_table_run in HK.
  destruct (fopen w (reads_table c)) as [file|] eqn:Hfile; [|discriminate].
  simpl in HK. injection HK as <-.
  apply only_bind; [apply only_make_table; eauto|]. intros asm1 _.
  apply only_bind.
  { destruct (ASM1 c); [|apply only_ret].
    apply only_bind; [apply only_make_table; eauto|]. intros; apply only_ret. }
  intros asm2 _. apply only_bind.
  { case_match; [apply only_ret|by apply only_emit]. }
  intros _ _. apply only_bind; [apply only_emit, Hplot; reflexivity|].
  intros _ _. apply only_bind; [by apply only_remove_table|].
  intros _ _. apply only_bind; [|intros; apply only_stop].
  destruct asm2; [by apply only_remove_table|apply only_ret].
Qed.

Lemma configure_styles (o : Options) (c : Config) :
  configure o = Ok c →
  ¬ (LINE c = 0 ∧ FILL c = 0 ∧ STACK c = 0) ∧
  (o_flags o "l"%char = 0 → o_flags o "f"%char = 0 → o_flags o "s"%char = 0 →
   LINE c = 1 ∧ FILL c = 1 ∧ STACK c = 1).
Proof.
  unfold configure. intros H.
  destruct (int_wrap (int_wrap (o_flags o "l"%char + o_flags o "f"%char)
                      + o_flags o "s"%char) =? 0) eqn:E.
  - repeat (case_match; simplify_eq/=); (split; [intros (? & ? & ?); discriminate|done]).
  - assert (¬ (o_flags o "l"%char = 0 ∧ o_flags o "f"%char = 0 ∧ o_flags o "s"%char = 0)).
    { intros (Hl & Hf & Hs). rewrite Hl, Hf, Hs in E. discriminate. }
    repeat (case_match; simplify_eq/=); (split; [done|intros; exfalso; auto]).
Qed.

(** C8: [asm_plot] is never called with all three of LINE, FILL and STACK
    at zero, and when none of the flags l, f and s was set by the command
    line it is called with all three at 1. *)
Theorem styles_default_to_all (w : World) (argv : list string) (a : PlotArgs) :
  a ∈ plot_calls (main w argv).1 →
  ¬ (p_LINE a = 0 ∧ p_FILL a = 0 ∧ p_STACK a = 0) ∧
  (∀ o, scan_args defaults (tail argv) = Ok o →
     o_flags o "l"%char = 0 → o_flags o "f"%char = 0 → o_flags o "s"%char = 0 →
     p_LINE a = 1 ∧ p_FILL a = 1 ∧ p_STACK a = 1).
Proof.
  rewrite elem_of_plot_calls. unfold main, parse_args.
  destruct (scan_args defaults (tail argv)) as [o|f] eqn:Ho; simpl.
  2:{ intros H. apply list_elem_of_singleton in H. discriminate. }
  destruct (configure o) as [c|f] eqn:Hc.
  2:{ intros H. apply list_elem_of_singleton in H. discriminate. }
  intros Hin.
  assert (Hfields : p_LINE a = LINE c ∧ p_FILL a = FILL c ∧ p_STACK a = STACK c).
  { pose proof (only_run
      (λ e, ∀ a, e = AsmPlot a →
            p_LINE a = LINE c ∧ p_FILL a = FILL c ∧ p_STACK a = STACK c) w c) as H.
    unfold only in H. rewrite Forall_forall in H. eapply H; try done.
    intros a' ? ? ? _ _ a'' [= <-]. done. }
  destruct Hfields as (-> & -> & ->).
  destruct (configure_styles o c Hc) as [Hne Hall].
  split; [exact Hne|]. intros o' [= <-]. exact Hall.
Qed.

(** C6: [check_table] on a table that cannot be opened ends the run with
    the message that names the table and [exit (1)]; in [main], when the
    reads table named on the command line cannot be opened, the run is the
    attempt to open it, that message and [exit (1)]: no command was given to
    the system and [asm_plot] was never called. *)
Theorem unreadable_table_is_fatal (w : World) :
  (∀ name lmer,
     fopen w name = None →
     check_table w name lmer
     = ([Fopen name;
         Stderr (Prog_Name +:+ ": Cannot find FastK table " +:+ name +:+ nl)],
        Err (Exit 1))) ∧
  (∀ argv c,
     parse_args argv = Ok c → fopen w (reads_table c) = None →
     main w argv
     = ([Fopen (reads_table c);
         Stderr (Prog_Name +:+ ": Cannot find FastK table " +:+ reads_table c +:+ nl)],
        Err (Exit 1)) ∧
     commands (main w argv).1 = [] ∧ plot_calls (main w argv).1 = []).
Proof.
  split.
  - intros name lmer Hfile. rewrite check_table_run, Hfile. reflexivity.
  - intros argv c Hc Hfile.
    assert (main w argv
            = ([Fopen (reads_table c);
                Stderr (Prog_Name +:+ ": Cannot find FastK table "
                        +:+ reads_table c +:+ nl)],
               Err (Exit 1))) as ->.
    { unfold main. rewrite Hc. unfold run. fold (reads_table c).
      rewrite check_table_run, Hfile. reflexivity. }
    repeat split.
Qed.




(** ** Verbosity *)

Lemma same_but_stderr_bind {A B} (m1 m2 : Run A) (k1 k2 : A → Run B) :
  same_but_stderr m1 m2 → (∀ a, same_but_stderr (k1 a) (k2 a)) →
  same_but_stderr (m1 ≫= k1) (m2 ≫= k2).
Proof.
  unfold same_but_stderr, silent. intros [Ht Hr] Hk.
  rewrite !bind_trace, !bind_result, !List.filter_app, Ht, Hr.
  destruct (m2.2) as [a|s]; [|done].
  destruct (Hk a) as [-> ->]. done.
Qed.

Lemma same_but_stderr_report (v1 v2 : Z) (text1 text2 : string) :
  same_but_stderr (if v1 =? 0 then run_ret tt else emit (Stderr text1))
                  (if v2 =? 0 then run_ret tt else emit (Stderr text2)).
Proof. destruct (v1 =? 0), (v2 =? 0); done. Qed.

Lemma make_table_verbosity (v : Z) (c : Config) (KMER : Z) (asm : string) :
  same_but_stderr (make_table (with_VERBOSE v c) KMER asm) (make_table c KMER asm).
Proof.
  unfold make_table. apply same_but_stderr_bind; [done|]. intros name.
  apply same_but_stderr_bind; [apply same_but_stderr_report|]. done.
Qed.

Lemma run_verbosity (w : World) (v : Z) (c : Config) :
  same_but_stderr (run w (with_VERBOSE v c)) (run w c).
Proof.
  unfold run. apply same_but_stderr_bind; [done|]. intros KMER.
  apply same_but_stderr_bind; [apply make_table_verbosity|]. intros asm1.
  apply same_but_stderr_bind.
  { simpl. destruct (ASM1 c); [|done].
    apply same_but_stderr_bind; [apply make_table_verbosity|done]. }
  intros asm2.
  apply same_but_stderr_bind; [apply same_but_stderr_report|]. done.
Qed.

(** C9: two invocations whose configurations differ in VERBOSE only run to
    the same end with the same events once the writes to stderr are left
    out: the same files opened, the same commands, the same call to
    [asm_plot] with the same arguments. *)
Theorem verbosity_is_diagnostic_only (w : World) (argv1 argv2 : list string)
    (c1 c2 : Config) :
  parse_args argv1 = Ok c1 → parse_args argv2 = Ok c2 →
  with_VERBOSE (VERBOSE c1) c2 = c1 →
  silent (main w argv1).1 = silent (main w argv2).1 ∧
  (main w argv1).2 = (main w argv2).2 ∧
  plot_calls (main w argv1).1 = plot_calls (main w argv2).1.
Proof.
  intros H1 H2 Hc. unfold main. rewrite H1, H2, <- Hc.
  destruct (run_verbosity w (VERBOSE c1) c2) as [Ht Hr].
  split; [exact Ht|]. split; [exact Hr|].
  assert (∀ t, plot_calls t = plot_calls (silent t)) as Hs.
  { induction t as [|e t IH]; [done|]. destruct e; simpl; by rewrite ?IH. }
  rewrite Hs, Ht, <- Hs. done.
Qed.

End DriverProperties.

(** ** The driver on the sample instance *)

Lemma invalid_scale_is_fatal_witness :
  ∃ o v,
    @scan_args Sample.libfastk (@defaults Sample.libfastk) ["-v"] = Ok o ∧
    @ARG_REAL Sample.libfastk "-x0" = Ok v ∧ nonpositive v = true ∧
    @main Sample.libfastk Sample.world
      ["ASMplot"; "-v"; "-x0"; "reads"; "asm.fa"; "out"]
    = ([Stderr ("ASMpLot: max x scaling factor must be > 0" +:+ nl)], Err (Exit 1)).
Proof.
  eexists _, _.
  split; [reflexivity|]. split; [reflexivity|]. split; [reflexivity|].
  exact (proj1 (@invalid_scale_is_fatal Sample.libfastk Sample.world)
           "ASMplot" ["-v"] "-x0" ["reads"; "asm.fa"; "out"] _ _ AxisX
           eq_refl eq_refl eq_refl eq_refl).
Defined.

Lemma styles_default_to_all_witness :
  ∃ a o,
    a ∈ plot_calls (@main Sample.libfastk Sample.world
                      ["ASMplot"; "-v"; "reads"; "assembly.fasta"; "out"]).1 ∧
    @scan_args Sample.libfastk (@defaults Sample.libfastk)
      ["-v"; "reads"; "assembly.fasta"; "out"] = Ok o ∧
    o_flags o "l"%char = 0 ∧ o_flags o "f"%char = 0 ∧ o_flags o "s"%char = 0 ∧
    p_LINE a = 1 ∧ p_FILL a = 1 ∧ p_STACK a = 1.
Proof.
  eexists _, _.
  split; [vm_compute; left|].
  split; [reflexivity|].
  split; [reflexivity|]. split; [reflexivity|]. split; [reflexivity|].
  refine (proj2 (@styles_default_to_all Sample.libfastk Sample.world
                   ["ASMplot"; "-v"; "reads"; "assembly.fasta"; "out"] _ _)
            _ eq_refl eq_refl eq_refl eq_refl).
  vm_compute; left.
Defined.

Lemma unreadable_table_is_fatal_witness :
  ∃ c,
    @parse_args Sample.libfastk ["ASMplot"; "missing"; "assembly.fasta"; "out"] = Ok c ∧
    fopen Sample.world (@reads_table Sample.libfastk c) = None ∧
    @main Sample.libfastk Sample.world ["ASMplot"; "missing"; "assembly.fasta"; "out"]
    = ([Fopen "missing.ktab";
        Stderr ("ASMpLot: Cannot find FastK table missing.ktab" +:+ nl)],
       Err (Exit 1)).
Proof.
  eexists. split; [reflexivity|]. split; [reflexivity|].
  exact (proj1 (proj2 (@unreadable_table_is_fatal Sample.libfastk Sample.world)
                  ["ASMplot"; "missing"; "assembly.fasta"; "out"] _ eq_refl eq_refl)).
Defined.

Lemma verbosity_is_diagnostic_only_witness :
  silent (@main Sample.libfastk Sample.world
            ["ASMplot"; "-v"; "-X200"; "reads"; "assembly.fasta"; "out"]).1
  = silent (@main Sample.libfastk Sample.world
              ["ASMplot"; "-X200"; "reads"; "assembly.fasta"; "out"]).1 ∧
  Stderr (nl +:+ "  Making Venn histograms and plotting" +:+ nl)
  ∈ (@main Sample.libfastk Sample.world
       ["ASMplot"; "-v"; "-X200"; "reads"; "assembly.fasta"; "out"]).1.
Proof.
  split.
  - refine (proj1 (@verbosity_is_diagnostic_only Sample.libfastk Sample.world
                     ["ASMplot"; "-v"; "-X200"; "reads"; "assembly.fasta"; "out"]
                     ["ASMplot"; "-X200"; "reads"; "assembly.fasta"; "out"]
                     _ _ eq_refl eq_refl eq_refl)).
  - vm_compute. do 3 right. left.
Defined.

(* ===================================================================== *)
(** * Properties of the merge classifier and the histogram *)
(* ===================================================================== *)

Lemma merge_unfold (streams : list Stream) :
  merge streams =
  match min_key streams with
  | None => []
  | Some m => observe m streams :: merge (advance m <$> streams)
  end.
Proof.
  funelim (merge streams).
  - rewrite Hm. reflexivity.
  - match goal with E : min_key _ = None |- _ => rewrite E end. reflexivity.
Qed.

Lemma min_key_None (streams : list Stream) (s : Stream) :
  min_key streams = None → s ∈ streams → s = [].
Proof.
  induction streams as [|s0 rest IH]; intros Hm Hin; [by apply elem_of_nil in Hin|].
  simpl in Hm. destruct (current s0) as [k|] eqn:Hk.
  - destruct (min_key rest); discriminate.
  - apply elem_of_cons in Hin as [->|Hin]; [|by apply IH].
    destruct s0; [done|discriminate].
Qed.

Lemma min_key_le (streams : list Stream) (m : N) (s : Stream) (k : N) :
  min_key streams = Some m → s ∈ streams → current s = Some k → (m ≤ k)%N.
Proof.
  revert m. induction streams as [|s0 rest IH]; intros m Hm Hin Hk;
    [by apply elem_of_nil in Hin|].
  simpl in Hm. apply elem_of_cons in Hin as [->|Hin].
  - rewrite Hk in Hm. destruct (min_key rest); simplify_eq; lia.
  - destruct (min_key rest) as [m'|] eqn:E.
    + specialize (IH m' eq_refl Hin Hk).
      destruct (current s0); simplify_eq; lia.
    + rewrite (min_key_None rest s E Hin) in Hk. discriminate.
Qed.

Lemma increasing_tail (k : N) (c : nat) (r : Stream) :
  increasing ((k, c) :: r) → increasing r ∧ ∀ x, x ∈ stream_keys r → (k < x)%N.
Proof.
  unfold increasing, stream_keys. rewrite fmap_cons. simpl.
  intros H. apply StronglySorted_inv in H as [Hr Hall]. split; [done|].
  intros x Hx. apply elem_of_list_to_set in Hx.
  rewrite Forall_forall in Hall. by apply Hall.
Qed.

Lemma stream_keys_cons (k : N) (c : nat) (r : Stream) :
  stream_keys ((k, c) :: r) = {[k]} ∪ stream_keys r.
Proof. reflexivity. Qed.

Lemma increasing_advance (m : N) (s : Stream) :
  increasing s → increasing (advance m s).
Proof.
  unfold advance. destruct (at_key m s); [|done].
  destruct s as [|[k c] r]; [done|]. intros H. by apply increasing_tail in H as [].
Qed.

Lemma stream_keys_advance (m : N) (s : Stream) :
  increasing s → (∀ k, current s = Some k → (m ≤ k)%N) →
  stream_keys (advance m s) = stream_keys s ∖ {[m]}.
Proof.
  intros Hs Hle. unfold advance, at_key. destruct s as [|[k c] r]; simpl.
  - unfold stream_keys. simpl. set_solver.
  - apply increasing_tail in Hs as [_ Hgt]. specialize (Hle k eq_refl).
    rewrite stream_keys_cons.
    destruct (N.eqb_spec k m) as [->|Hne]; simpl.
    + apply set_eq. intros x. rewrite elem_of_difference, elem_of_union,
        elem_of_singleton. split.
      * intros Hx. specialize (Hgt x Hx). split; [by right|lia].
      * intros [[->|Hx] Hn]; done.
    + rewrite stream_keys_cons.
      apply set_eq. intros x. rewrite elem_of_difference, elem_of_union,
        !elem_of_singleton. split.
      * intros [->|Hx]; (split; [auto|]); [lia|]. specialize (Hgt x Hx). lia.
      * intros [H _]. done.
Qed.

Lemma keys_cons (s : Stream) (rest : list Stream) :
  keys (s :: rest) = stream_keys s ∪ keys rest.
Proof. reflexivity. Qed.

Lemma keys_advance (m : N) (streams : list Stream) :
  Forall increasing streams →
  (∀ s k, s ∈ streams → current s = Some k → (m ≤ k)%N) →
  keys (advance m <$> streams) = keys streams ∖ {[m]}.
Proof.
  induction streams as [|s rest IH]; intros Hinc Hle.
  - unfold keys. simpl. set_solver.
  - apply Forall_cons in Hinc as [Hs Hrest].
    rewrite fmap_cons, !keys_cons, IH, stream_keys_advance; [set_solver|done| | |].
    + intros k. apply Hle. left.
    + done.
    + intros s' k Hin. apply Hle. by right.
Qed.

Lemma min_key_in_keys (m : N) (streams : list Stream) :
  min_key streams = Some m → m ∈ keys streams.
Proof.
  intros Hm. destruct (min_key_at_key _ _ Hm) as (s & Hin & Hat).
  unfold keys. apply elem_of_union_list. exists (stream_keys s). split.
  - apply list_elem_of_fmap. by exists s.
  - unfold at_key in Hat. destruct s as [|[k c] r]; [discriminate|].
    simpl in Hat. apply N.eqb_eq in Hat as ->.
    rewrite stream_keys_cons. set_solver.
Qed.

Lemma min_key_None_keys (streams : list Stream) :
  min_key streams = None → keys streams = ∅.
Proof.
  intros Hm. unfold keys. apply set_eq. intros x.
  rewrite elem_of_union_list. split; [|set_solver].
  intros (X & HX & Hx). apply list_elem_of_fmap in HX as (s & -> & Hs).
  rewrite (min_key_None _ _ Hm Hs) in Hx. set_solver.
Qed.

(** The merge visits the keys of the union, each one once. *)
Lemma merge_keys (streams : list Stream) :
  Forall increasing streams →
  NoDup (ob_key <$> merge streams) ∧
  list_to_set (ob_key <$> merge streams) =@{gset N} keys streams.
Proof.
  funelim (merge streams); intros Hinc.
  - assert (Forall increasing (advance m <$> streams)) as Hadv.
    { rewrite Forall_fmap. eapply Forall_impl; [exact Hinc|].
      intros s. apply increasing_advance. }
    match goal with IH : Forall _ _ → _ |- _ => destruct (IH Hadv) as [Hnd Hset] end.
    rewrite keys_advance in Hset; [|done|].
    2:{ intros s k. by apply min_key_le. }
    pose proof (min_key_in_keys _ _ Hm) as Hin.
    rewrite fmap_cons. simpl. split.
    + apply NoDup_cons. split; [|done].
      intros Hdup. apply (elem_of_list_to_set (C := gset N)) in Hdup.
      rewrite Hset in Hdup. set_solver.
    + rewrite Hset. apply set_eq. intros x.
      destruct (decide (x = m)) as [->|]; set_solver.
  - match goal with E : min_key _ = None |- _ =>
      rewrite (min_key_None_keys _ E) end.
    split; [constructor|reflexivity].
Qed.

Lemma classify_member (mask : list bool) :
  (1 ≤ length mask ≤ 3)%nat → true ∈ mask → is_Some (classify mask).
Proof.
  intros Hlen Hin.
  destruct mask as [|b1 [|b2 [|b3 [|b4 rest]]]]; simpl in Hlen; try lia;
    repeat match goal with b : bool |- _ => destruct b end;
    simpl; eauto; exfalso; set_solver.
Qed.

Lemma merge_categories (streams : list Stream) :
  (1 ≤ length streams ≤ 3)%nat →
  Forall (λ ob, is_Some (ob_category ob)) (merge streams).
Proof.
  funelim (merge streams); intros Hlen; [|constructor].
  constructor.
  - simpl. apply classify_member; [by rewrite length_fmap|].
    destruct (min_key_at_key _ _ Hm) as (s & Hin & Hat).
    apply list_elem_of_fmap. by exists s.
  - match goal with IH : _ → Forall _ _ |- _ => apply IH end.
    by rewrite length_fmap.
Qed.

(** ** The accumulator *)

Lemma total_delete (h : HistogramMatrix) (cell : nat * MembershipCategory) (v : nat) :
  h !! cell = Some v → total h = (v + total (delete cell h))%nat.
Proof.
  intros H. unfold total.
  rewrite (map_fold_delete_L (λ _ count acc, count + acc)%nat 0%nat cell v h);
    [reflexivity| |done].
  intros; lia.
Qed.

Lemma total_insert (h : HistogramMatrix) (cell : nat * MembershipCategory) (n : nat) :
  total (<[cell := n]> h) = (n + total (delete cell h))%nat.
Proof.
  rewrite <- insert_delete_eq. unfold total.
  rewrite (map_fold_insert_L (λ _ count acc, count + acc)%nat 0%nat cell n
             (delete cell h));
    [reflexivity| |apply lookup_delete_eq].
  intros; lia.
Qed.

Lemma total_record (CAP m : nat) (c : MembershipCategory) (h : HistogramMatrix) :
  total (record CAP m c h) = S (total h).
Proof.
  unfold record. cbv zeta. rewrite total_insert, lookup_total_alt.
  destruct (h !! (clamp CAP m, c)) as [v|] eqn:E; simpl.
  - rewrite (total_delete h _ v E). lia.
  - rewrite delete_id by done. lia.
Qed.

Lemma aggregate_record (CAP m : nat) (c : MembershipCategory) (h : HistogramMatrix)
    (bin : nat) :
  aggregate (record CAP m c h) bin =
  (aggregate h bin + if decide (clamp CAP m = bin) then 1 else 0)%nat.
Proof.
  unfold aggregate, record, all_categories. cbv zeta. csimpl.
  destruct (decide (clamp CAP m = bin)) as [->|Hne].
  - destruct c;
      rewrite ?lookup_total_insert_eq;
      rewrite ?lookup_total_insert_ne by (intros [=]);
      rewrite ?lookup_total_insert_eq; lia.
  - rewrite !lookup_total_insert_ne by (intros [=]; done). lia.
Qed.

Lemma accumulate_from (CAP : nat) (obs : list Observation) (h : HistogramMatrix) :
  Forall (λ ob, is_Some (ob_category ob)) obs →
  total (foldl (record_observation CAP) h obs) = (total h + length obs)%nat ∧
  ∀ bin, aggregate (foldl (record_observation CAP) h obs) bin
         = (aggregate h bin
            + length (filter (λ ob, clamp CAP (ob_multiplicity ob) = bin) obs))%nat.
Proof.
  revert h. induction obs as [|ob obs IH]; intros h Hall; simpl.
  - split; [lia|]. intros bin. lia.
  - apply Forall_cons in Hall as [[c Hc] Hall].
    destruct (IH (record_observation CAP h ob) Hall) as [Ht Ha].
    assert (record_observation CAP h ob = record CAP (ob_multiplicity ob) c h) as Hrec.
    { unfold record_observation. by rewrite Hc. }
    rewrite Hrec in Ht, Ha. rewrite Hrec, Ht, total_record.
    split; [lia|]. intros bin. rewrite Ha, aggregate_record, filter_cons.
    destruct (decide (clamp CAP (ob_multiplicity ob) = bin)); simpl; lia.
Qed.

Lemma total_empty : total ∅ = 0%nat.
Proof. reflexivity. Qed.

Lemma aggregate_empty (bin : nat) : aggregate ∅ bin = 0%nat.
Proof. reflexivity. Qed.

(** C1: for input tables with strictly increasing keys, one reads table
    and at most two assembly tables, the counts of all cells of the
    histogram add up to the number of distinct keys of the union of the
    tables: the merge emits one observation per key of the union, no key
    twice and none left out, every observation has a category, and the
    cells of a multiplicity bin add up to the number of keys observed in
    that bin. *)
Theorem histogram_counts_each_kmer_once (CAP : nat) (streams : list Stream) :
  Forall increasing streams → (1 ≤ length streams ≤ 3)%nat →
  total (histogram CAP streams) = size (keys streams) ∧
  NoDup (ob_key <$> merge streams) ∧
  (∀ k, k ∈ keys streams ↔ k ∈ ob_key <$> merge streams) ∧
  Forall (λ ob, is_Some (ob_category ob)) (merge streams) ∧
  (∀ bin, aggregate (histogram CAP streams) bin
          = length (filter (λ ob, clamp CAP (ob_multiplicity ob) = bin)
                      (merge streams))).
Proof.
  intros Hinc Hlen.
  destruct (merge_keys streams Hinc) as [Hnd Hset].
  pose proof (merge_categories streams Hlen) as Hcat.
  destruct (accumulate_from CAP (merge streams) ∅ Hcat) as [Ht Ha].
  split; [|split; [done|split; [|split; [done|]]]].
  - unfold histogram, accumulate.
    rewrite Ht, total_empty, <- Hset, size_list_to_set by done.
    by rewrite length_fmap.
  - intros k. rewrite <- Hset. apply elem_of_list_to_set.
  - intros bin. unfold histogram, accumulate.
    rewrite Ha, aggregate_empty. lia.
Qed.

Lemma histogram_counts_each_kmer_once_witness :
  total (histogram 100 [Sample.reads; Sample.assembly])
  = size (keys [Sample.reads; Sample.assembly]) ∧
  size (keys [Sample.reads; Sample.assembly]) = 4%nat.
Proof.
  split; [|vm_compute; reflexivity].
  refine (proj1 (histogram_counts_each_kmer_once 100
                   [Sample.reads; Sample.assembly] _ _)).
  - repeat constructor.
  - simpl. lia.
Defined.

(** ** The scenario with one assembly *)

Lemma stream_keys_advance_subseteq (m : N) (s : Stream) :
  stream_keys (advance m s) ⊆ stream_keys s.
Proof.
  unfold advance. destruct (at_key m s); [|done].
  destruct s as [|[k c] r]; [done|]. simpl. rewrite stream_keys_cons. set_solver.
Qed.

Lemma merge_absent_from_reads (streams : list Stream) (ob : Observation) :
  ob ∈ merge streams →
  ob_key ob ∉ stream_keys (default [] (head streams)) →
  ob_multiplicity ob = 0%nat.
Proof.
  revert ob. funelim (merge streams); intros ob Hin Hnot;
    [|by apply elem_of_nil in Hin].
  apply elem_of_cons in Hin as [->|Hin].
  - simpl in *. unfold reads_multiplicity.
    destruct streams as [|[|[k c] r] rest]; try done.
    destruct (N.eqb_spec k m) as [->|]; [|done].
    exfalso. apply Hnot. simpl. rewrite stream_keys_cons. set_solver.
  - match goal with IH : ∀ ob, _ → _ → _ |- _ => apply IH; [done|] end.
    intros Hk. apply Hnot. destruct streams as [|s rest]; [done|].
    simpl in *. by apply (stream_keys_advance_subseteq m s).
Qed.

(** C2: for keys A < B < C < D, the reads table A:5, B:12, C:40 and the
    assembly table B, C, D (with any counts), the merge emits exactly A as
    ReadsOnly at multiplicity 5, B as Shared at 12, C as Shared at 40 and D
    as AssemblyOnly at 0; and in every merge an observation whose key is
    not in the reads table has multiplicity 0 and is recorded in bin 0. *)
Theorem scenario_one_assembly (A B C D : N) (b c d : nat) :
  (A < B)%N → (B < C)%N → (C < D)%N →
  merge [[(A, 5%nat); (B, 12%nat); (C, 40%nat)]; [(B, b); (C, c); (D, d)]]
  = [mkObservation A 5 (Some ReadsOnly); mkObservation B 12 (Some Shared);
     mkObservation C 40 (Some Shared); mkObservation D 0 (Some AssemblyOnly)] ∧
  (∀ CAP reads assemblies ob,
     ob ∈ merge (reads :: assemblies) → ob_key ob ∉ stream_keys reads →
     ob_multiplicity ob = 0%nat ∧ clamp CAP (ob_multiplicity ob) = 0%nat).
Proof.
  intros HAB HBC HCD. split.
  - assert (∀ x y : N, (x < y)%N → N.eqb x y = false ∧ N.eqb y x = false
                                  ∧ N.min x y = x ∧ N.min y x = x) as Hlt.
    { intros x y Hxy. rewrite N.min_l, N.min_r by lia.
      repeat split; try apply N.eqb_neq; lia. }
    destruct (Hlt A B HAB) as (EAB & EBA & MAB & MBA).
    destruct (Hlt B C HBC) as (EBC & ECB & MBC & MCB).
    destruct (Hlt C D HCD) as (ECD & EDC & MCD & MDC).
    rewrite merge_unfold. simpl. rewrite MAB.
    unfold observe, advance, at_key. simpl. rewrite N.eqb_refl, EBA. simpl.
    rewrite merge_unfold. simpl. rewrite N.min_id.
    unfold observe, advance, at_key. simpl. rewrite N.eqb_refl. simpl.
    rewrite merge_unfold. simpl. rewrite N.min_id.
    unfold observe, advance, at_key. simpl. rewrite N.eqb_refl. simpl.
    rewrite merge_unfold. simpl.
    unfold observe, advance, at_key. simpl. rewrite N.eqb_refl. simpl.
    rewrite merge_unfold. reflexivity.
  - intros CAP reads assemblies ob Hin Hnot.
    rewrite (merge_absent_from_reads (reads :: assemblies) ob Hin Hnot).
    split; reflexivity.
Qed.

Lemma scenario_one_assembly_witness :
  merge [Sample.reads; Sample.assembly]
  = [mkObservation 1 5 (Some ReadsOnly); mkObservation 2 12 (Some Shared);
     mkObservation 3 40 (Some Shared); mkObservation 4 0 (Some AssemblyOnly)].
Proof.
  refine (proj1 (scenario_one_assembly 1 2 3 4 1 1 1 _ _ _)); reflexivity.
Defined.

(* ===================================================================== *)
(** * Properties of the scale resolver *)
(* ===================================================================== *)

Lemma Qceiling_positive (q : Q) : (0 < q)%Q → 0 < Qceiling q.
Proof.
  intros Hq. rewrite Zlt_Qlt. eapply Qlt_le_trans; [exact Hq|apply Qle_ceiling].
Qed.

Lemma resolve_axis_relative (minimum_extent : Z) (rel : Q) (p : nat) :
  p ≠ 0%nat →
  resolve_axis minimum_extent None rel p = Qceiling (rel * inject_Z (Z.of_nat p)).
Proof.
  intros Hp. unfold resolve_axis. destruct (Nat.eqb_spec p 0); [done|reflexivity].
Qed.

Lemma resolve_axis_positive (minimum_extent : Z) (absolute : option Z) (rel : Q)
    (p : nat) :
  0 < minimum_extent → (0 < rel)%Q → (∀ a, absolute = Some a → 0 < a) →
  0 < resolve_axis minimum_extent absolute rel p.
Proof.
  intros Hmin Hrel Habs. unfold resolve_axis.
  destruct absolute as [a|]; [by apply Habs|].
  destruct (Nat.eqb_spec p 0); [done|].
  apply Qceiling_positive.
  apply Qmult_lt_0_compat; [done|].
  change 0%Q with (inject_Z 0). rewrite <- Zlt_Qlt. lia.
Qed.

(** C3: with no absolute x maximum and a peak away from bin 0, the
    resolved xMax is the ceiling of the relative factor times the peak
    position, in exact rational arithmetic; for the factor 2.1 (any fraction
    equal to 21/10) and an aggregate peak at multiplicity 30 it is 63. *)
Theorem relative_x_scale (minimum_extent : Z) (req : ScaleRequest)
    (skip CAP : nat) (h : HistogramMatrix) :
  xAbsoluteMax req = None → (peak skip CAP h).1 ≠ 0%nat →
  xMax (resolve minimum_extent req (peak skip CAP h))
  = Qceiling (xRelativeFactor req * inject_Z (Z.of_nat (peak skip CAP h).1)) ∧
  ((xRelativeFactor req == 21 # 10)%Q → (peak skip CAP h).1 = 30%nat →
   xMax (resolve minimum_extent req (peak skip CAP h)) = 63).
Proof.
  intros Habs Hpeak. unfold resolve. simpl. rewrite Habs.
  rewrite resolve_axis_relative by done. split; [reflexivity|].
  intros Hrel ->. rewrite Hrel. reflexivity.
Qed.

Lemma relative_x_scale_witness :
  (peak 0 100 (histogram 100 [[(7%N, 30%nat)]; [(7%N, 1%nat)]])).1 = 30%nat ∧
  xMax (resolve 1 (mkScaleRequest None None (21 # 10) (11 # 10))
          (peak 0 100 (histogram 100 [[(7%N, 30%nat)]; [(7%N, 1%nat)]]))) = 63.
Proof.
  split; [vm_compute; reflexivity|].
  refine (proj2 (relative_x_scale 1 (mkScaleRequest None None (21 # 10) (11 # 10))
                   0 100 (histogram 100 [[(7%N, 30%nat)]; [(7%N, 1%nat)]]) eq_refl _)
            (Qeq_refl _) _).
  - vm_compute. discriminate.
  - vm_compute. reflexivity.
Defined.

Lemma total_zero_lookup (h : HistogramMatrix) (cell : nat * MembershipCategory) :
  total h = 0%nat → h !!! cell = 0%nat.
Proof.
  intros Ht. rewrite lookup_total_alt.
  destruct (h !! cell) as [v|] eqn:E; [|reflexivity].
  simpl. rewrite (total_delete h cell v E) in Ht. lia.
Qed.

Lemma aggregate_zero (h : HistogramMatrix) (bin : nat) :
  total h = 0%nat → aggregate h bin = 0%nat.
Proof.
  intros Ht. unfold aggregate, all_categories. csimpl.
  rewrite !(total_zero_lookup h _ Ht). reflexivity.
Qed.

(** An empty histogram has its peak at (0, 0). *)
Lemma peak_empty (skip CAP : nat) (h : HistogramMatrix) :
  total h = 0%nat → peak skip CAP h = (0, 0)%nat.
Proof.
  intros Ht. unfold peak. generalize (seq (S skip) (CAP - skip)).
  intros bins. induction bins as [|bin bins IH]; [reflexivity|].
  simpl. unfold better at 2. simpl. rewrite (aggregate_zero h bin Ht). exact IH.
Qed.

(** C4: for relative factors above zero and absolute maxima that, where
    given, are above zero, the resolved xMax and yMax are above zero for
    every histogram, empty or not; an absolute maximum that is given is
    the resolved value whatever the relative factor and the peak are; and
    for an empty histogram an axis without an absolute maximum gets the
    minimum extent. *)
Theorem scale_is_positive (minimum_extent : Z) (req : ScaleRequest)
    (skip CAP : nat) (h : HistogramMatrix) :
  0 < minimum_extent → valid_request req →
  (0 < xMax (resolve minimum_extent req (peak skip CAP h)) ∧
   0 < yMax (resolve minimum_extent req (peak skip CAP h))) ∧
  (∀ a pk, xAbsoluteMax req = Some a → xMax (resolve minimum_extent req pk) = a) ∧
  (∀ a pk, yAbsoluteMax req = Some a → yMax (resolve minimum_extent req pk) = a) ∧
  (total h = 0%nat → xAbsoluteMax req = None →
   xMax (resolve minimum_extent req (peak skip CAP h)) = minimum_extent) ∧
  (total h = 0%nat → yAbsoluteMax req = None →
   yMax (resolve minimum_extent req (peak skip CAP h)) = minimum_extent).
Proof.
  intros Hmin (Hx & Hy & Hxa & Hya). unfold resolve. simpl.
  split; [split; by apply resolve_axis_positive|].
  split; [intros a pk ->; reflexivity|].
  split; [intros a pk ->; reflexivity|].
  split; intros Ht ->; rewrite (peak_empty skip CAP h Ht); reflexivity.
Qed.

Lemma scale_is_positive_witness :
  xMax (resolve 1 (mkScaleRequest (Some 200) None (21 # 10) (11 # 10))
          (peak 0 100 (histogram 100 [Sample.reads; Sample.assembly]))) = 200 ∧
  0 < yMax (resolve 1 (mkScaleRequest (Some 200) None (21 # 10) (11 # 10))
              (peak 0 100 (histogram 100 [Sample.reads; Sample.assembly]))) ∧
  resolve 1 (mkScaleRequest None None (21 # 10) (11 # 10)) (peak 0 100 ∅)
  = mkScaleSpec 1 1.
Proof.
  assert (valid_request (mkScaleRequest (Some 200) None (21 # 10) (11 # 10))) as Hv.
  { repeat split; simpl; try discriminate. intros a [= <-]. reflexivity. }
  split; [|split].
  - exact (proj1 (proj2 (scale_is_positive 1 _ 0 100
                           (histogram 100 [Sample.reads; Sample.assembly])
                           eq_refl Hv)) 200 _ eq_refl).
  - exact (proj2 (proj1 (scale_is_positive 1 _ 0 100
                           (histogram 100 [Sample.reads; Sample.assembly])
                           eq_refl Hv))).
  - vm_compute. reflexivity.
Defined.

(** ** The absolute maxima [main] hands to [asm_plot] *)

Section AbsoluteLimits.
Context `{L : LibFastK}.
Hypothesis ARG_POSITIVE_positive :
  ∀ arg what v, ARG_POSITIVE arg what = Ok v → 0 < v.

Lemma scan_arg_limits (o o' : Options) (arg : string) :
  scan_arg o arg = Ok o' → 0 ≤ o_XMAX o ∧ 0 ≤ o_YMAX o →
  0 ≤ o_XMAX o' ∧ 0 ≤ o_YMAX o'.
Proof.
  unfold scan_arg, scan_option, macro. destruct o. simpl.
  intros H [Hx Hy].
  repeat (case_match; simplify_eq/=); simpl; try done;
    match goal with
    | E : ARG_POSITIVE _ _ = Ok _ |- _ => apply ARG_POSITIVE_positive in E; lia
    end.
Qed.

Lemma scan_args_limits (l : list string) (o o' : Options) :
  scan_args o l = Ok o' → 0 ≤ o_XMAX o ∧ 0 ≤ o_YMAX o →
  0 ≤ o_XMAX o' ∧ 0 ≤ o_YMAX o'.
Proof.
  revert o. induction l as [|a l IH]; intros o; simpl.
  - by intros [= ->].
  - destruct (scan_arg o a) as [o1|f] eqn:E; simpl; [|discriminate].
    intros H Ho. eapply IH; [done|]. by eapply scan_arg_limits.
Qed.

(** The request [asm_plot] gets from [main] is one the resolver accepts:
    XMAX and YMAX are 0, for an option that was not given, or above zero. *)
Lemma main_requests_are_valid (argv : list string) (c : Config) (xrel yrel : Q) :
  parse_args argv = Ok c → (0 < xrel)%Q → (0 < yrel)%Q →
  valid_request (mkScaleRequest (absolute_limit (XMAX c)) (absolute_limit (YMAX c))
                   xrel yrel).
Proof.
  unfold parse_args.
  destruct (scan_args defaults (tail argv)) as [o|f] eqn:E; simpl; [|discriminate].
  intros Hc Hx Hy. destruct (configure_fields _ _ Hc) as (_ & _ & -> & -> & _).
  destruct (scan_args_limits _ _ _ E) as [HX HY]; [simpl; lia|].
  unfold valid_request, absolute_limit. simpl.
  split; [done|]. split; [done|].
  split; intros a; case_match; intros [= <-];
    match goal with E : (_ =? 0) = false |- _ => apply Z.eqb_neq in E end; lia.
Qed.

End AbsoluteLimits.

(* ===================================================================== *)
(** * More on the extension-stripping loop *)
(* ===================================================================== *)

Lemma strlen_chars (l post : list ascii) :
  Forall (λ c, c ≠ NUL) l → strlen (l ++ NUL :: post) = Ok (Z.of_nat (length l)).
Proof.
  intros Hl. unfold strlen.
  apply (strlen_from_chars l [] post); [done|].
  rewrite length_app. simpl. lia.
Qed.

(** A turn that does not fault has dropped the suffix, or left the name. *)
Lemma strip_suffix_result (l post b' : list ascii) (suf : string) :
  Forall (λ c, c ≠ NUL) l → Forall (λ c, c ≠ NUL) (list_ascii_of_string suf) →
  Z.of_nat (length l) < 2 ^ 31 → Z.of_nat (String.length suf) < 2 ^ 31 →
  strip_suffix (l ++ NUL :: post) suf = Ok b' →
  ∃ post', b' = drop_extension l suf ++ NUL :: post'.
Proof.
  intros Hl Hsuf Hint Hsint Hok.
  destruct (le_lt_dec (String.length suf) (length l)) as [Hle|Hlt].
  - destruct (strip_suffix_inside l post suf Hl Hsuf Hle Hint) as [post' Hin].
    rewrite Hin in Hok. injection Hok as <-. by exists post'.
  - rewrite (strip_suffix_short _ suf _ (strlen_chars l post Hl)) in Hok by lia.
    discriminate.
Qed.

Lemma strip_suffixes_result (sufs : list string) (l post b' : list ascii) :
  Forall (λ c, c ≠ NUL) l →
  Forall (λ suf, Forall (λ c, c ≠ NUL) (list_ascii_of_string suf)) sufs →
  Z.of_nat (length l) < 2 ^ 31 →
  Forall (λ suf, Z.of_nat (String.length suf) < 2 ^ 31) sufs →
  strip_suffixes (l ++ NUL :: post) sufs = Ok b' →
  ∃ post', b' = foldl drop_extension l sufs ++ NUL :: post'.
Proof.
  revert l post. induction sufs as [|suf sufs IH]; intros l post Hl Hsufs Hint Hsint.
  - simpl. intros [= <-]. by exists post.
  - apply Forall_cons in Hsufs as [Hsuf Hsufs].
    apply Forall_cons in Hsint as [Hs1 Hsint].
    cbn [strip_suffixes foldl].
    destruct (strip_suffix (l ++ NUL :: post) suf) as [b1|f] eqn:E; [|discriminate].
    destruct (strip_suffix_result l post b1 suf Hl Hsuf Hint Hs1 E) as [post1 ->].
    change (Ok ?n ≫= ?k) with (k n). cbv beta.
    apply IH; [by apply drop_extension_chars|done| |done].
    pose proof (drop_extension_length l suf). lia.
Qed.

Lemma suffix_sizes : Forall (λ suf, Z.of_nat (String.length suf) < 2 ^ 31) suffix.
Proof.
  unfold suffix.
  repeat (apply Forall_cons_2; [simpl String.length; lia|]). apply Forall_nil_2.
Qed.

Lemma res_ok_inj {E A} (a b : A) : @Ok E A a = Ok b → a = b.
Proof. by intros [= ->]. Qed.

(** What the loop leaves when it does not fault. *)
Lemma strip_extensions_result (name r : string) :
  Forall (λ c, c ≠ NUL) (list_ascii_of_string name) →
  Z.of_nat (String.length name) < 2 ^ 31 →
  strip_extensions name = Ok r → r = stripped name.
Proof.
  intros Hname Hint. unfold strip_extensions, c_array.
  rewrite <- length_list_ascii_of_string in Hint.
  destruct (strip_suffixes (list_ascii_of_string name ++ [NUL]) suffix)
    as [b|f] eqn:E; [|discriminate].
  destruct (strip_suffixes_result suffix _ [] b Hname suffix_chars Hint suffix_sizes E)
    as [post' ->].
  change (Ok ?n ≫= ?k) with (k n). cbv beta. intros Hr.
  apply res_ok_inj in Hr. subst r.
  apply c_string_chars. by apply foldl_drop_extension_chars.
Qed.

Lemma string_of_list_ascii_app (l1 l2 : list ascii) :
  string_of_list_ascii (l1 ++ l2) = string_of_list_ascii l1 +:+ string_of_list_ascii l2.
Proof. induction l1 as [|c l1 IH]; simpl; [reflexivity|by rewrite IH]. Qed.

Lemma drop_extension_prefix (l : list ascii) (suf : string) :
  ∃ rest, l = drop_extension l suf ++ rest.
Proof.
  unfold drop_extension. cbv zeta. case_bool_decide.
  - eexists. symmetry. apply take_drop.
  - exists []. by rewrite app_nil_r.
Qed.

Lemma foldl_drop_extension_prefix (sufs : list string) (l : list ascii) :
  ∃ rest, l = foldl drop_extension l sufs ++ rest.
Proof.
  revert l. induction sufs as [|suf sufs IH]; intros l; simpl.
  - exists []. by rewrite app_nil_r.
  - destruct (IH (drop_extension l suf)) as [r1 H1].
    destruct (drop_extension_prefix l suf) as [r2 H2].
    exists (r1 ++ r2). rewrite app_assoc, <- H1. exact H2.
Qed.

(** X1: whenever the loop stays inside the argument, the name it leaves in
    [ASM[i]] is the argument with each of the nine suffixes dropped once, in
    the order of the table, where it ends the name at that turn. *)
Theorem stripping_drops_the_suffixes_in_order (name r : string) :
  Forall (λ c, c ≠ NUL) (list_ascii_of_string name) →
  Z.of_nat (String.length name) < 2 ^ 31 →
  strip_extensions name = Ok r → r = stripped name.
Proof. apply strip_extensions_result. Qed.

Lemma stripping_drops_the_suffixes_in_order_witness :
  strip_extensions "assembly.fa.gz" = Ok "assembly" ∧
  "assembly" = stripped "assembly.fa.gz" ∧
  stripped "assembly.gz.fa" = "assembly.gz".
Proof.
  split; [vm_compute; reflexivity|]. split; [|vm_compute; reflexivity].
  apply (stripping_drops_the_suffixes_in_order "assembly.fa.gz" "assembly").
  - apply (bool_decide_unpack _). vm_compute. exact I.
  - vm_compute. reflexivity.
  - vm_compute. reflexivity.
Defined.

(** X5: the loop only ever cuts at the end: a name it leaves is a prefix of
    the argument. *)
Theorem stripping_leaves_a_prefix (name r : string) :
  Forall (λ c, c ≠ NUL) (list_ascii_of_string name) →
  Z.of_nat (String.length name) < 2 ^ 31 →
  strip_extensions name = Ok r → ∃ rest, name = r +:+ rest.
Proof.
  intros Hname Hint Hok.
  rewrite (strip_extensions_result name r Hname Hint Hok).
  destruct (foldl_drop_extension_prefix suffix (list_ascii_of_string name))
    as [rest Hrest].
  exists (string_of_list_ascii rest).
  rewrite <- string_of_list_ascii_app, <- Hrest.
  symmetry. apply string_of_list_ascii_of_string.
Qed.

Lemma stripping_leaves_a_prefix_witness :
  ∃ rest, "assembly.fasta" = "assembly" +:+ rest.
Proof.
  apply (stripping_leaves_a_prefix "assembly.fasta" "assembly").
  - apply (bool_decide_unpack _). vm_compute. exact I.
  - vm_compute. reflexivity.
  - vm_compute. reflexivity.
Defined.

(** X4: a name of six characters or more that ends in none of the nine
    suffixes is left as it is, with every read inside the argument. *)
Theorem names_without_suffix_are_kept (name : string) :
  Forall (λ c, c ≠ NUL) (list_ascii_of_string name) →
  Z.of_nat (String.length name) < 2 ^ 31 →
  (6 ≤ String.length name)%nat →
  (∀ suf front, suf ∈ suffix → name ≠ front +:+ suf) →
  strip_extensions name = Ok name.
Proof.
  intros Hname Hint Hlong Hends.
  assert (∀ sufs, sufs ⊆ suffix →
          foldl drop_extension (list_ascii_of_string name) sufs
          = list_ascii_of_string name) as Hkeep.
  { induction sufs as [|suf sufs IH]; intros Hsub; [reflexivity|].
    cbn [foldl].
    assert (drop_extension (list_ascii_of_string name) suf
            = list_ascii_of_string name) as ->.
    { unfold drop_extension. cbv zeta.
      generalize (length (list_ascii_of_string name)
                  - length (list_ascii_of_string suf))%nat.
      intros n. case_bool_decide as Hd; [|reflexivity].
      exfalso.
      apply (Hends suf (string_of_list_ascii (take n (list_ascii_of_string name)))).
      - apply Hsub. left.
      - rewrite <- (string_of_list_ascii_of_string suf) at 1.
        rewrite <- string_of_list_ascii_app, <- Hd, take_drop.
        symmetry. apply string_of_list_ascii_of_string. }
    apply IH. intros x Hx. apply Hsub. by right. }
  specialize (Hkeep suffix (reflexivity _)).
  rewrite <- length_list_ascii_of_string in Hint, Hlong.
  destruct (strip_suffixes_inside suffix (list_ascii_of_string name) [] Hname
              suffix_chars) as [post' Hpost].
  - rewrite Hkeep. by apply suffix_lengths.
  - done.
  - unfold strip_extensions, c_array. rewrite Hpost, Hkeep.
    change (Ok ?n ≫= ?k) with (k n). cbv beta.
    rewrite c_string_chars by done.
    by rewrite string_of_list_ascii_of_string.
Qed.

Lemma list_ascii_of_string_app (s1 s2 : string) :
  list_ascii_of_string (s1 +:+ s2) = list_ascii_of_string s1 ++ list_ascii_of_string s2.
Proof. induction s1 as [|c s1 IH]; simpl; [reflexivity|by rewrite IH]. Qed.

(** A name that ends with a suffix, seen on the characters. *)
Lemma ends_with_drop (name front suf : string) :
  name = front +:+ suf →
  drop (length (list_ascii_of_string name) - length (list_ascii_of_string suf))
    (list_ascii_of_string name)
  = list_ascii_of_string suf.
Proof.
  intros ->. rewrite list_ascii_of_string_app, length_app.
  replace (length (list_ascii_of_string front) + length (list_ascii_of_string suf)
           - length (list_ascii_of_string suf))%nat
    with (length (list_ascii_of_string front)) by lia.
  apply drop_app_length.
Qed.

Lemma names_without_suffix_are_kept_witness :
  strip_extensions "assembly" = Ok "assembly".
Proof.
  apply names_without_suffix_are_kept.
  - apply (bool_decide_unpack _). vm_compute. exact I.
  - vm_compute. reflexivity.
  - simpl. lia.
  - intros suf front Hin Heq. apply ends_with_drop in Heq.
    unfold suffix in Hin.
    repeat (apply elem_of_cons in Hin as [->|Hin]; [vm_compute in Heq; discriminate|]).
    by apply elem_of_nil in Hin.
Defined.

(* ===================================================================== *)
(** * More on the command line *)
(* ===================================================================== *)

Section CommandLineProperties.
Context `{L : LibFastK}.

Lemma scan_arg_option (o : Options) (arg : string) :
  is_option arg = true → scan_arg o arg = scan_option o arg.
Proof. unfold is_option, scan_arg. by intros ->. Qed.

Lemma scan_arg_argument (o : Options) (arg : string) :
  is_option arg = false →
  scan_arg o arg
  = Ok (mkOptions (o_flags o) (o_XDIM o) (o_YDIM o) (o_XREL o) (o_YREL o)
          (o_XMAX o) (o_YMAX o) (o_PDF o) (o_NTHREADS o) (o_SORT_PATH o)
          (o_args o ++ [arg])).
Proof. unfold is_option, scan_arg. intros ->. by destruct o. Qed.

Lemma scan_option_args (o o' : Options) (arg : string) :
  scan_option o arg = Ok o' → o_args o' = o_args o.
Proof.
  unfold scan_option, macro. destruct o. simpl. intros H.
  repeat (case_match; simplify_eq/=); done.
Qed.

Lemma scan_args_arguments (l : list string) (o o' : Options) :
  scan_args o l = Ok o' → o_args o' = o_args o ++ arguments l.
Proof.
  revert o. induction l as [|arg l IH]; intros o; simpl.
  - intros [= ->]. by rewrite app_nil_r.
  - destruct (scan_arg o arg) as [o1|f] eqn:E; simpl; [|discriminate].
    intros H. rewrite (IH _ H).
    destruct (is_option arg) eqn:Hopt; simpl.
    + rewrite scan_arg_option in E by done. by rewrite (scan_option_args _ _ _ E).
    + rewrite scan_arg_argument in E by done. injection E as <-. simpl.
      by rewrite <- app_assoc.
Qed.

(** X10: options and arguments may be mixed freely: the elements of [argv]
    that do not start with a dash are, in the order they stand, the reads
    table, the first assembly, the second one if there are four, and the
    output. *)
Theorem arguments_keep_their_order (argv : list string) (c : Config) :
  parse_args argv = Ok c →
  arguments (tail argv)
  = READS c :: ASM0 c :: (match ASM1 c with Some a => [a] | None => [] end ++ [OUT c]).
Proof.
  unfold parse_args.
  destruct (scan_args defaults (tail argv)) as [o|f] eqn:E; simpl; [|discriminate].
  apply scan_args_arguments in E. simpl in E. rewrite <- E.
  unfold configure. intros H.
  repeat (case_match; simplify_eq/=); done.
Qed.

(** X6: when the scan of the options succeeds and the number of remaining
    arguments is neither three nor four, the run is the usage text on
    stderr and [exit (1)], whatever the options were. *)
Theorem wrong_argument_count_is_usage_error (w : World) (argv : list string)
    (o : Options) :
  scan_args defaults (tail argv) = Ok o →
  length (arguments (tail argv)) ≠ 3%nat → length (arguments (tail argv)) ≠ 4%nat →
  main w argv = ([Stderr (usage_text Prog_Name)], Err (Exit 1)).
Proof.
  intros E H3 H4. unfold main, parse_args. rewrite E. simpl.
  apply scan_args_arguments in E. simpl in E. rewrite <- E in H3, H4.
  unfold configure.
  destruct (o_args o) as [|a1 [|a2 [|a3 [|a4 [|a5 rest]]]]]; simpl in *;
    try reflexivity; lia.
Qed.

Lemma scan_option_p (o : Options) (arg : string) :
  char_at arg 1 = "p"%char → String.eqb "df" (after_letter arg) = false →
  scan_option o arg = Err (UnknownOption arg).
Proof.
  intros Hp Hdf. unfold scan_option. destruct o. rewrite Hp.
  change (Ascii.eqb "p" "h") with false. change (Ascii.eqb "p" "p") with true.
  cbv iota. rewrite Hdf. reflexivity.
Qed.

(** X7: an option whose letter is [p] and whose text is not [-pdf] ends
    the run with the message that names the option and [exit (1)]. *)
Theorem unknown_p_option_is_fatal (w : World) (argv0 : string)
    (before after : list string) (arg : string) (o : Options) :
  scan_args defaults before = Ok o →
  is_option arg = true → char_at arg 1 = "p"%char → after_letter arg ≠ "df" →
  main w (argv0 :: before ++ arg :: after)
  = ([Stderr (Prog_Name +:+ ": don't recognize option " +:+ arg +:+ nl)],
     Err (Exit 1)).
Proof.
  intros Ho Hopt Hp Hdf. unfold main, parse_args. simpl tail.
  rewrite scan_args_app, Ho.
  change (Ok ?x ≫= ?k) with (k x). cbv beta. cbn [scan_args].
  rewrite scan_arg_option by done.
  rewrite scan_option_p; [reflexivity|done|].
  apply String.eqb_neq. congruence.
Qed.

(** X8: the first element of [argv] the scan rejects decides the run: its
    message and [exit (1)], whatever follows it on the command line. *)
Theorem first_error_ends_the_scan (w : World) (argv0 : string)
    (before after : list string) (f : Fatal) :
  scan_args defaults before = Err f →
  main w (argv0 :: before ++ after)
  = ([Stderr (stderr_text Prog_Name f)], Err (Exit 1)).
Proof.
  intros Hf. unfold main, parse_args. simpl tail.
  rewrite scan_args_app, Hf. reflexivity.
Qed.

Lemma scan_swap (o : Options) (opt pos : string) :
  is_option opt = true → is_option pos = false →
  (scan_arg o opt ≫= λ o1, scan_arg o1 pos)
  = (scan_arg o pos ≫= λ o1, scan_arg o1 opt).
Proof.
  intros Hopt Hpos.
  rewrite (scan_arg_argument o pos Hpos).
  change (Ok ?x ≫= ?k) with (k x). cbv beta.
  rewrite !(scan_arg_option _ opt Hopt).
  destruct o. unfold scan_option, macro. simpl.
  repeat (case_match; simplify_eq/=); try reflexivity;
    rewrite scan_arg_argument by done; reflexivity.
Qed.

(** X9: an option may stand before or after an argument: exchanging the
    two neighbours changes nothing in the run, neither its events nor its
    end. *)
Theorem options_may_stand_anywhere (w : World) (argv0 : string)
    (l1 l2 : list string) (opt pos : string) :
  is_option opt = true → is_option pos = false →
  main w (argv0 :: l1 ++ opt :: pos :: l2) = main w (argv0 :: l1 ++ pos :: opt :: l2).
Proof.
  intros Hopt Hpos. unfold main, parse_args. simpl tail.
  rewrite !scan_args_app.
  destruct (scan_args defaults l1) as [o|f]; [|reflexivity].
  change (Ok ?x ≫= ?k) with (k x). cbv beta.
  cbn [scan_args].
  assert (∀ (m : Res Fatal Options) (k1 k2 : Options → Res Fatal Options),
            (m ≫= k1) ≫= k2 = m ≫= (λ x, k1 x ≫= k2)) as Hassoc.
  { intros [x|e] k1 k2; reflexivity. }
  rewrite <- !Hassoc, (scan_swap o opt pos Hopt Hpos). reflexivity.
Qed.

(** Every call of [asm_plot] made by the second block has the arguments of
    the configuration, with some names for the assemblies. *)
Lemma plot_call_arguments (w : World) (c : Config) (a : PlotArgs) :
  AsmPlot a ∈ (run w c).1 →
  ∃ asm1 asm2,
    a = mkPlotArgs (OUT c) asm1 asm2 (Root (READS c) ".ktab") (XDIM c) (YDIM c)
          (XREL c) (YREL c) (XMAX c) (YMAX c) (PDF c) (ZGRAM c) (LINE c)
          (FILL c) (STACK c) (mktemp w template) (NTHREADS c).
Proof.
  set (P := λ e, ∀ a, e = AsmPlot a → ∃ asm1 asm2,
    a = mkPlotArgs (OUT c) asm1 asm2 (Root (READS c) ".ktab") (XDIM c) (YDIM c)
          (XREL c) (YREL c) (XMAX c) (YMAX c) (PDF c) (ZGRAM c) (LINE c)
          (FILL c) (STACK c) (mktemp w template) (NTHREADS c)).
  assert (only P (run w c)) as Honly.
  { assert (∀ text, P (Stderr text)) as Herr by (intros text a' [=]).
    assert (∀ cmd, P (System cmd)) as Hsys by (intros cmd a' [=]).
    unfold run. apply only_bind.
    { rewrite check_table_run.
      destruct (fopen w _); simpl; repeat constructor; auto; intros a' [=]. }
    intros KMER _.
    apply only_bind; [apply only_make_table; auto|]. intros asm1 _.
    apply only_bind.
    { destruct (ASM1 c); [|apply only_ret].
      apply only_bind; [apply only_make_table; auto|]. intros; apply only_ret. }
    intros asm2 _. apply only_bind.
    { case_match; [apply only_ret|by apply only_emit]. }
    intros _ _. apply only_bind.
    { apply only_emit. intros a' [= <-]. by exists asm1, asm2. }
    intros _ _. apply only_bind; [by apply only_remove_table|].
    intros _ _. apply only_bind; [|intros; apply only_stop].
    destruct asm2; [by apply only_remove_table|apply only_ret]. }
  intros Hin. unfold only in Honly. rewrite Forall_forall in Honly.
  by apply (Honly _ Hin).
Qed.

Lemma plot_call_of_main (w : World) (argv : list string) (a : PlotArgs) :
  a ∈ plot_calls (main w argv).1 →
  ∃ c, parse_args argv = Ok c ∧ AsmPlot a ∈ (run w c).1.
Proof.
  rewrite elem_of_plot_calls. unfold main.
  destruct (parse_args argv) as [c|f]; [by exists c|].
  intros H. apply list_elem_of_singleton in H. discriminate.
Qed.

(** X11: when the flags l, f and s are 0 or 1 and at least one of them is
    set, [asm_plot] gets exactly the styles that were asked for: any
    combination is passed on as it is. *)
Theorem requested_styles_are_passed (w : World) (argv : list string)
    (a : PlotArgs) (o : Options) :
  a ∈ plot_calls (main w argv).1 →
  scan_args defaults (tail argv) = Ok o →
  (o_flags o "l"%char = 0 ∨ o_flags o "l"%char = 1) →
  (o_flags o "f"%char = 0 ∨ o_flags o "f"%char = 1) →
  (o_flags o "s"%char = 0 ∨ o_flags o "s"%char = 1) →
  ¬ (o_flags o "l"%char = 0 ∧ o_flags o "f"%char = 0 ∧ o_flags o "s"%char = 0) →
  p_LINE a = o_flags o "l"%char ∧ p_FILL a = o_flags o "f"%char ∧
  p_STACK a = o_flags o "s"%char.
Proof.
  intros Hin Ho Hl Hf Hs Hsome.
  destruct (plot_call_of_main w argv a Hin) as (c & Hc & Hcall).
  destruct (plot_call_arguments w c a Hcall) as (asm1 & asm2 & ->). simpl.
  unfold parse_args in Hc. rewrite Ho in Hc. simpl in Hc.
  unfold configure in Hc.
  assert ((int_wrap (int_wrap (o_flags o "l"%char + o_flags o "f"%char)
                     + o_flags o "s"%char) =? 0) = false) as Hnone.
  { destruct Hl as [Hl|Hl], Hf as [Hf|Hf], Hs as [Hs|Hs]; rewrite Hl, Hf, Hs;
      try reflexivity. exfalso. apply Hsome. auto. }
  rewrite Hnone in Hc.
  repeat (case_match; simplify_eq/=); done.
Qed.

(** X18: the check on a relative factor is [XREL <= 0.], so every number
    for which that comparison is false is stored as it is; a NaN, which is
    not above zero, is among them. *)
Theorem scale_check_lets_nan_through (o : Options) (arg : string) (v : float) :
  scale_axis arg = Some AxisX → ARG_REAL arg = Ok v → nonpositive v = false →
  ∃ o', scan_arg o arg = Ok o' ∧ o_XREL o' = v ∧ o_YREL o' = o_YREL o.
Proof.
  unfold scale_axis, scan_arg, scan_option. intros Hax Hv Hle. destruct o.
  destruct (Ascii.eqb (char_at arg 0) "-"); [|discriminate].
  destruct (Ascii.eqb (char_at arg 1) "x") eqn:Hx.
  - apply Ascii.eqb_eq in Hx. rewrite Hx.
    change (Ascii.eqb "x" "h") with false. change (Ascii.eqb "x" "p") with false.
    change (Ascii.eqb "x" "w") with false. change (Ascii.eqb "x" "x") with true.
    cbv iota. rewrite Hv.
    change (macro (Ok v) ≫= ?k) with (k v). cbv beta. rewrite Hle.
    eexists. split; [reflexivity|]. split; reflexivity.
  - destruct (Ascii.eqb (char_at arg 1) "y"); discriminate.
Qed.

End CommandLineProperties.

(** The limits and the number of threads are what [ARG_POSITIVE] lets
    through, or their initial values. *)
Section PositiveArguments.
Context `{L : LibFastK}.
Hypothesis ARG_POSITIVE_positive :
  ∀ arg what v, ARG_POSITIVE arg what = Ok v → 0 < v.

Lemma scan_arg_threads (o o' : Options) (arg : string) :
  scan_arg o arg = Ok o' → 0 < o_NTHREADS o → 0 < o_NTHREADS o'.
Proof.
  unfold scan_arg, scan_option, macro. destruct o. simpl.
  intros H Hn.
  repeat (case_match; simplify_eq/=); simpl; try done;
    match goal with
    | E : ARG_POSITIVE _ _ = Ok _ |- _ => by apply ARG_POSITIVE_positive in E
    end.
Qed.

Lemma scan_args_threads (l : list string) (o o' : Options) :
  scan_args o l = Ok o' → 0 < o_NTHREADS o → 0 < o_NTHREADS o'.
Proof.
  revert o. induction l as [|a l IH]; intros o; simpl.
  - by intros [= ->].
  - destruct (scan_arg o a) as [o1|f] eqn:E; simpl; [|discriminate].
    intros H Ho. eapply IH; [done|]. by eapply scan_arg_threads.
Qed.

(** X17: provided [ARG_POSITIVE] yields numbers above zero only, [asm_plot]
    is never given a negative XMAX or YMAX (0 stands for an option that was
    not given) and always a number of threads above zero. *)
Theorem plot_limits_are_not_negative (w : World) (argv : list string) (a : PlotArgs) :
  a ∈ plot_calls (main w argv).1 →
  0 ≤ p_XMAX a ∧ 0 ≤ p_YMAX a ∧ 0 < p_NTHREADS a.
Proof.
  intros Hin.
  destruct (plot_call_of_main w argv a Hin) as (c & Hc & Hcall).
  destruct (plot_call_arguments w c a Hcall) as (asm1 & asm2 & ->). simpl.
  unfold parse_args in Hc.
  destruct (scan_args defaults (tail argv)) as [o|f] eqn:E; simpl in Hc; [|discriminate].
  destruct (scan_args_limits ARG_POSITIVE_positive _ _ _ E) as [HX HY]; [simpl; lia|].
  pose proof (scan_args_threads _ _ _ E) as HT.
  destruct (configure_fields _ _ Hc) as (_ & _ & -> & -> & _).
  assert (NTHREADS c = o_NTHREADS o) as ->.
  { unfold configure in Hc. repeat (case_match; simplify_eq/=); done. }
  split; [done|]. split; [done|]. apply HT. simpl. lia.
Qed.

End PositiveArguments.

(** ** The command line on the sample instance *)

Lemma arguments_keep_their_order_witness :
  ∃ c,
    @parse_args Sample.libfastk
      ["ASMplot"; "reads"; "-v"; "first.fasta"; "-X200"; "second.fasta"; "out"] = Ok c ∧
    READS c = "reads" ∧ ASM0 c = "first.fasta" ∧ ASM1 c = Some "second.fasta" ∧
    OUT c = "out" ∧
    arguments ["reads"; "-v"; "first.fasta"; "-X200"; "second.fasta"; "out"]
    = READS c :: ASM0 c :: (match ASM1 c with Some a => [a] | None => [] end ++ [OUT c]).
Proof.
  eexists. split; [reflexivity|]. do 4 (split; [reflexivity|]).
  exact (@arguments_keep_their_order Sample.libfastk
           ["ASMplot"; "reads"; "-v"; "first.fasta"; "-X200"; "second.fasta"; "out"]
           _ eq_refl).
Defined.

Lemma wrong_argument_count_is_usage_error_witness :
  @main Sample.libfastk Sample.world ["ASMplot"; "-v"; "reads"; "out"]
  = ([Stderr (usage_text "ASMpLot")], Err (Exit 1)).
Proof.
  refine (@wrong_argument_count_is_usage_error Sample.libfastk Sample.world
            ["ASMplot"; "-v"; "reads"; "out"] _ eq_refl _ _);
    vm_compute; discriminate.
Defined.

Lemma unknown_p_option_is_fatal_witness :
  @main Sample.libfastk Sample.world ["ASMplot"; "-v"; "-png"; "reads"; "asm.fa"; "out"]
  = ([Stderr ("ASMpLot: don't recognize option -png" +:+ nl)], Err (Exit 1)).
Proof.
  refine (@unknown_p_option_is_fatal Sample.libfastk Sample.world "ASMplot"
            ["-v"] ["reads"; "asm.fa"; "out"] "-png" _ eq_refl eq_refl eq_refl _).
  vm_compute. discriminate.
Defined.

Lemma first_error_ends_the_scan_witness :
  @main Sample.libfastk Sample.world ["ASMplot"; "-v"; "-q"; "-x0"; "reads"]
  = ([Stderr ("ASMpLot: -q is an illegal option" +:+ nl)], Err (Exit 1)).
Proof.
  exact (@first_error_ends_the_scan Sample.libfastk Sample.world "ASMplot"
           ["-v"; "-q"] ["-x0"; "reads"] _ eq_refl).
Defined.

Lemma options_may_stand_anywhere_witness :
  @main Sample.libfastk Sample.world
    ["ASMplot"; "reads"; "-X200"; "assembly.fasta"; "out"]
  = @main Sample.libfastk Sample.world
      ["ASMplot"; "reads"; "assembly.fasta"; "-X200"; "out"] ∧
  plot_calls (@main Sample.libfastk Sample.world
                ["ASMplot"; "reads"; "assembly.fasta"; "-X200"; "out"]).1 ≠ [].
Proof.
  split.
  - exact (@options_may_stand_anywhere Sample.libfastk Sample.world "ASMplot"
             ["reads"] ["out"] "-X200" "assembly.fasta" eq_refl eq_refl).
  - vm_compute. discriminate.
Defined.

Lemma requested_styles_are_passed_witness :
  ∃ a,
    a ∈ plot_calls (@main Sample.libfastk Sample.world
                      ["ASMplot"; "-ls"; "reads"; "assembly.fasta"; "out"]).1 ∧
    p_LINE a = 1 ∧ p_FILL a = 0 ∧ p_STACK a = 1.
Proof.
  eexists. split; [vm_compute; left|].
  refine (@requested_styles_are_passed Sample.libfastk Sample.world
            ["ASMplot"; "-ls"; "reads"; "assembly.fasta"; "out"] _ _ _ eq_refl
            _ _ _ _).
  - vm_compute. left.
  - right. reflexivity.
  - left. reflexivity.
  - right. reflexivity.
  - intros (H & _). vm_compute in H. discriminate.
Defined.

Lemma scale_check_lets_nan_through_witness :
  ∃ o', @scan_arg Sample.libfastk_nan (@defaults Sample.libfastk_nan) "-xnan" = Ok o' ∧
        PrimFloat.is_nan (o_XREL o') = true.
Proof.
  destruct (@scale_check_lets_nan_through Sample.libfastk_nan
              (@defaults Sample.libfastk_nan) "-xnan" PrimFloat.nan
              eq_refl eq_refl eq_refl) as (o' & Ho & Hx & _).
  exists o'. split; [exact Ho|]. rewrite Hx. reflexivity.
Defined.

Lemma sample_ARG_POSITIVE_positive (arg what : string) (v : Z) :
  @ARG_POSITIVE Sample.libfastk arg what = Ok v → 0 < v.
Proof.
  simpl. destruct (Sample.integer (after_letter arg)) as [z|]; [|discriminate].
  destruct (Z.leb_spec z 0); [discriminate|]. intros [= <-]. done.
Qed.

Lemma plot_limits_are_not_negative_witness :
  ∃ a,
    a ∈ plot_calls (@main Sample.libfastk Sample.world
                      ["ASMplot"; "-X200"; "-T8"; "reads"; "assembly.fasta"; "out"]).1 ∧
    p_XMAX a = 200 ∧ p_YMAX a = 0 ∧ p_NTHREADS a = 8 ∧
    0 ≤ p_XMAX a ∧ 0 ≤ p_YMAX a ∧ 0 < p_NTHREADS a.
Proof.
  eexists. split; [vm_compute; left|]. do 3 (split; [reflexivity|]).
  refine (@plot_limits_are_not_negative Sample.libfastk sample_ARG_POSITIVE_positive
            Sample.world
            ["ASMplot"; "-X200"; "-T8"; "reads"; "assembly.fasta"; "out"] _ _).
  vm_compute; left.
Defined.

(* ===================================================================== *)
(** * More on runs *)
(* ===================================================================== *)

Lemma length_append (s1 s2 : string) :
  String.length (s1 +:+ s2) = (String.length s1 + String.length s2)%nat.
Proof. induction s1 as [|c s1 IH]; simpl; [reflexivity|by rewrite IH]. Qed.

Lemma fastk_command_length (KMER NTHREADS : Z) (SORT_PATH name : string) :
  (String.length SORT_PATH + String.length name + 19
   ≤ String.length (fastk_command KMER NTHREADS SORT_PATH name))%nat.
Proof. unfold fastk_command. rewrite !length_append. simpl. lia. Qed.

Lemma fastrm_command_length (name : string) :
  String.length (fastrm_command name) = (7 + String.length name)%nat.
Proof. unfold fastrm_command. rewrite length_append. reflexivity. Qed.

(** ** What [fread] leaves in [kmer] *)

Lemma byte_val_range (b : byte) : 0 ≤ byte_val b < 256.
Proof. unfold byte_val. pose proof (Byte.to_N_bounded b). lia. Qed.

Lemma int_byte_eq (x : Z) (i : nat) :
  int_byte x i = (x / 2 ^ (8 * Z.of_nat i)) mod 256.
Proof.
  unfold int_byte. rewrite Z.shiftr_div_pow2 by lia.
  change 255 with (Z.ones 8). by rewrite Z.land_ones by lia.
Qed.

Lemma int_byte_range (x : Z) (i : nat) : 0 ≤ int_byte x i < 256.
Proof. rewrite int_byte_eq. apply Z.mod_pos_bound. lia. Qed.

(** Below bit [n] and from bit [n] on: the bits do not meet. *)
Lemma lor_add (a c n : Z) :
  0 ≤ n → 0 ≤ a < 2 ^ n → Z.lor a (c * 2 ^ n) = a + c * 2 ^ n.
Proof.
  intros Hn Ha. rewrite <- Z.shiftl_mul_pow2 by lia.
  assert (Z.land a (Z.shiftl c n) = 0) as Hdisj.
  { apply Z.bits_inj'. intros i Hi. rewrite Z.land_spec, Z.bits_0.
    destruct (Z.lt_ge_cases i n).
    - rewrite Z.shiftl_spec_low by lia. apply andb_false_r.
    - rewrite <- (Z.mod_small a (2 ^ n)) by lia.
      rewrite Z.mod_pow2_bits_high by lia. reflexivity. }
  rewrite <- Z.lxor_lor by exact Hdisj. symmetry. by apply Z.add_nocarry_lxor.
Qed.

Lemma int_of_bytes_sum (b0 b1 b2 b3 : Z) :
  0 ≤ b0 < 256 → 0 ≤ b1 < 256 → 0 ≤ b2 < 256 → 0 ≤ b3 < 256 →
  int_of_bytes b0 b1 b2 b3 = int_wrap (b0 + 256 * b1 + 65536 * b2 + 16777216 * b3).
Proof.
  intros H0 H1 H2 H3. unfold int_of_bytes. f_equal.
  rewrite !Z.shiftl_mul_pow2 by lia.
  rewrite (lor_add (b2 * 2 ^ 16) b3 24) by lia.
  replace (b2 * 2 ^ 16 + b3 * 2 ^ 24) with ((b2 + b3 * 256) * 2 ^ 16) by lia.
  rewrite (lor_add (b1 * 2 ^ 8) _ 16) by lia.
  replace (b1 * 2 ^ 8 + (b2 + b3 * 256) * 2 ^ 16)
    with ((b1 + b2 * 256 + b3 * 65536) * 2 ^ 8) by lia.
  rewrite (lor_add b0 _ 8) by lia. lia.
Qed.

Lemma int_byte_wrap (x : Z) (i : nat) :
  (i < 4)%nat → int_byte (int_wrap x) i = int_byte x i.
Proof.
  intros Hi. rewrite !int_byte_eq. unfold int_wrap.
  destruct (x mod 2 ^ 32 <? 2 ^ 31);
    do 4 (destruct i as [|i]; [simpl; Z.div_mod_to_equations; lia|]); lia.
Qed.

Lemma int_byte_of_bytes (b0 b1 b2 b3 : Z) :
  0 ≤ b0 < 256 → 0 ≤ b1 < 256 → 0 ≤ b2 < 256 → 0 ≤ b3 < 256 →
  int_byte (int_of_bytes b0 b1 b2 b3) 0 = b0 ∧
  int_byte (int_of_bytes b0 b1 b2 b3) 1 = b1 ∧
  int_byte (int_of_bytes b0 b1 b2 b3) 2 = b2 ∧
  int_byte (int_of_bytes b0 b1 b2 b3) 3 = b3.
Proof.
  intros H0 H1 H2 H3. rewrite int_of_bytes_sum by done.
  rewrite !int_byte_wrap by lia. rewrite !int_byte_eq. simpl.
  repeat split; Z.div_mod_to_equations; lia.
Qed.

(** The bytes that are in the file are copied into [kmer]. *)
Lemma fread_int_copies (file : list byte) (old : Z) (i : nat) (b : byte) :
  (i < 4)%nat → file !! i = Some b → int_byte (fread_int file old) i = byte_val b.
Proof.
  intros Hi Hb.
  destruct file as [|b0 [|b1 [|b2 [|b3 rest]]]]; cbn [fread_int];
    [discriminate|..];
    match goal with
    | |- int_byte (int_of_bytes ?x0 ?x1 ?x2 ?x3) _ = _ =>
        destruct (int_byte_of_bytes x0 x1 x2 x3) as (E0 & E1 & E2 & E3);
        try apply byte_val_range; try apply int_byte_range
    end;
    do 4 (destruct i as [|i];
          [first [by injection Hb as <- | discriminate]|]); lia.
Qed.

(** The bytes past the end of the file stay as they were. *)
Lemma fread_int_keeps (file : list byte) (old : Z) (i : nat) :
  (length file ≤ i < 4)%nat → int_byte (fread_int file old) i = int_byte old i.
Proof.
  intros Hi.
  destruct file as [|b0 [|b1 [|b2 [|b3 rest]]]]; cbn [fread_int];
    [reflexivity|..];
    match goal with
    | |- int_byte (int_of_bytes ?x0 ?x1 ?x2 ?x3) _ = _ =>
        destruct (int_byte_of_bytes x0 x1 x2 x3) as (E0 & E1 & E2 & E3);
        try apply byte_val_range; try apply int_byte_range
    end;
    simpl in Hi;
    do 4 (destruct i as [|i]; [first [done | lia]|]); lia.
Qed.

Section RunProperties.
Context `{L : LibFastK}.

Lemma make_table_run (c : Config) (KMER : Z) (asm : string) :
  make_table c KMER asm =
  match strip_extensions asm with
  | Err f => ([], Err (Undefined f))
  | Ok name =>
      let text := fastk_command KMER (NTHREADS c) (SORT_PATH c) name in
      let said := report (VERBOSE c)
                    (nl +:+ "  Making k-mer table for assembly " +:+ name +:+ nl) in
      if 5000 <=? Z.of_nat (String.length text)
      then (said, Err (Undefined (BufferOverflow (S (String.length text)))))
      else (build c KMER name, Ok name)
  end.
Proof.
  unfold make_table, build, report.
  destruct (strip_extensions asm) as [name|f]; [|reflexivity].
  cbv zeta.
  cbv [mbind mret run_mbind run_mret run_bind run_ret emit stop access sprintf_command].
  destruct (VERBOSE c =? 0);
    destruct (5000 <=? Z.of_nat (String.length
                (fastk_command KMER (NTHREADS c) (SORT_PATH c) name)));
    reflexivity.
Qed.

Lemma remove_table_run (name : string) :
  remove_table name =
  if 5000 <=? Z.of_nat (String.length (fastrm_command name))
  then ([], Err (Undefined (BufferOverflow (S (String.length (fastrm_command name))))))
  else ([System (fastrm_command name)], Ok tt).
Proof.
  cbv [remove_table mbind mret run_mbind run_mret run_bind run_ret emit stop sprintf_command].
  destruct (5000 <=? Z.of_nat (String.length (fastrm_command name))); reflexivity.
Qed.

Lemma make_table_fits (c : Config) (KMER : Z) (asm name : string) :
  strip_extensions asm = Ok name → fits c KMER name →
  make_table c KMER asm = (build c KMER name, Ok name).
Proof.
  intros Hs Hfit. rewrite make_table_run, Hs. cbv zeta. unfold fits in Hfit.
  destruct (Z.leb_spec 5000 (Z.of_nat (String.length
              (fastk_command KMER (NTHREADS c) (SORT_PATH c) name)))); [lia|reflexivity].
Qed.

Lemma remove_table_fits (c : Config) (KMER : Z) (name : string) :
  fits c KMER name → remove_table name = ([System (fastrm_command name)], Ok tt).
Proof.
  intros Hfit. rewrite remove_table_run. unfold fits in Hfit.
  pose proof (fastk_command_length KMER (NTHREADS c) (SORT_PATH c) name).
  pose proof (fastrm_command_length name).
  destruct (Z.leb_spec 5000 (Z.of_nat (String.length (fastrm_command name))));
    [lia|reflexivity].
Qed.

(** Opening the reads table with no expected length. *)
Lemma check_reads_table (w : World) (name : string) :
  check_table w name 0 =
  match fopen w name with
  | None =>
      ([Fopen name; Stderr (stderr_text Prog_Name (TableUnreadable name))],
       Err (Exit 1))
  | Some file => ([Fopen name], Ok (fread_int file (int_wrap (indeterminate w))))
  end.
Proof. rewrite check_table_run. destruct (fopen w name); reflexivity. Qed.

Lemma bind_ok {A B} (t : list Event) (x : A) (k : A → Run B) :
  ((t, Ok x) : Run A) ≫= k = let '(t', r) := k x in (t ++ t', r).
Proof. reflexivity. Qed.

(** When nothing goes wrong the second block runs to [exit (0)]. *)
Lemma run_completes (w : World) (c : Config) (file : list byte)
    (first : string) (second : option string) :
  fopen w (reads_table c) = Some file →
  strip_extensions (ASM0 c) = Ok first →
  strip_extensions <$> ASM1 c = Ok <$> second →
  Forall (fits c (fread_int file (int_wrap (indeterminate w))))
    (first :: option_list second) →
  run w c
  = (complete_trace w c (fread_int file (int_wrap (indeterminate w))) first second,
     Err (Exit 0)).
Proof.
  intros Hfile H1 H2 Hfit.
  apply Forall_cons in Hfit as [Hfit1 Hfit2].
  assert (Hrm : ∀ name, fits c (fread_int file (int_wrap (indeterminate w))) name →
            (5000 <=? Z.of_nat (String.length (fastrm_command name))) = false).
  { intros name Hfit. apply (remove_table_fits c) in Hfit.
    rewrite remove_table_run in Hfit.
    destruct (5000 <=? Z.of_nat (String.length (fastrm_command name)));
      [discriminate|reflexivity]. }
  unfold run. fold (reads_table c). rewrite check_reads_table, Hfile.
  rewrite bind_ok, (make_table_fits c _ _ _ H1 Hfit1), bind_ok.
  destruct (ASM1 c) as [a|], second as [name|]; simpl in H2; try discriminate.
  - injection H2 as H2. simpl in Hfit2. apply Forall_cons in Hfit2 as [Hfit2 _].
    rewrite (make_table_fits c _ _ _ H2 Hfit2).
    cbv [mbind mret run_mbind run_mret run_bind run_ret emit stop remove_table
         sprintf_command].
    rewrite (Hrm _ Hfit1), (Hrm _ Hfit2).
    unfold complete_trace, plot_arguments, build, report.
    destruct (VERBOSE c =? 0); cbn [app]; reflexivity.
  - cbv [mbind mret run_mbind run_mret run_bind run_ret emit stop remove_table
         sprintf_command].
    rewrite (Hrm _ Hfit1).
    unfold complete_trace, plot_arguments, build, report.
    destruct (VERBOSE c =? 0); cbn [app]; reflexivity.
Qed.

(** Every way the second block can go. *)
Lemma run_cases (w : World) (c : Config) :
  match fopen w (reads_table c) with
  | None =>
      run w c = ([Fopen (reads_table c);
                  Stderr (stderr_text Prog_Name (TableUnreadable (reads_table c)))],
                 Err (Exit 1))
  | Some file =>
      let KMER := fread_int file (int_wrap (indeterminate w)) in
      match strip_extensions (ASM0 c) with
      | Err f => run w c = ([Fopen (reads_table c)], Err (Undefined f))
      | Ok first =>
          let text := fastk_command KMER (NTHREADS c) (SORT_PATH c) first in
          if 5000 <=? Z.of_nat (String.length text)
          then run w c
               = (Fopen (reads_table c)
                  :: report (VERBOSE c)
                       (nl +:+ "  Making k-mer table for assembly " +:+ first +:+ nl),
                  Err (Undefined (BufferOverflow (S (String.length text)))))
          else
            match ASM1 c with
            | None => run w c = (complete_trace w c KMER first None, Err (Exit 0))
            | Some a =>
                match strip_extensions a with
                | Err f =>
                    run w c
                    = (Fopen (reads_table c) :: build c KMER first, Err (Undefined f))
                | Ok second =>
                    let text := fastk_command KMER (NTHREADS c) (SORT_PATH c) second in
                    if 5000 <=? Z.of_nat (String.length text)
                    then run w c
                         = (Fopen (reads_table c)
                            :: build c KMER first
                            ++ report (VERBOSE c)
                                 (nl +:+ "  Making k-mer table for assembly "
                                  +:+ second +:+ nl),
                            Err (Undefined (BufferOverflow (S (String.length text)))))
                    else run w c
                         = (complete_trace w c KMER first (Some second), Err (Exit 0))
                end
            end
      end
  end.
Proof.
  destruct (fopen w (reads_table c)) as [file|] eqn:Hfile.
  2:{ unfold run. fold (reads_table c). rewrite check_reads_table, Hfile. reflexivity. }
  cbv zeta. set (KMER := fread_int file (int_wrap (indeterminate w))).
  destruct (strip_extensions (ASM0 c)) as [first|f] eqn:H1.
  2:{ unfold run. fold (reads_table c).
      rewrite check_reads_table, Hfile, bind_ok, make_table_run, H1. reflexivity. }
  destruct (5000 <=? Z.of_nat (String.length
              (fastk_command KMER (NTHREADS c) (SORT_PATH c) first))) eqn:Hfit1.
  { unfold run. fold (reads_table c).
    rewrite check_reads_table, Hfile, bind_ok, make_table_run, H1. cbv zeta.
    fold KMER. rewrite Hfit1. reflexivity. }
  apply Z.leb_gt in Hfit1.
  destruct (ASM1 c) as [a|] eqn:HA.
  2:{ apply (run_completes w c file first None);
        [exact Hfile|exact H1|by rewrite HA|].
      constructor; [exact Hfit1|constructor]. }
  destruct (strip_extensions a) as [second|f] eqn:H2.
  2:{ unfold run. fold (reads_table c).
      rewrite check_reads_table, Hfile, bind_ok. fold KMER.
      rewrite (make_table_fits c _ _ _ H1 Hfit1), bind_ok, HA, make_table_run, H2.
      cbv [mbind mret run_mbind run_mret run_bind run_ret]. cbn [app].
      by rewrite app_nil_r. }
  destruct (5000 <=? Z.of_nat (String.length
              (fastk_command KMER (NTHREADS c) (SORT_PATH c) second))) eqn:Hfit2.
  { unfold run. fold (reads_table c).
    rewrite check_reads_table, Hfile, bind_ok. fold KMER.
    rewrite (make_table_fits c _ _ _ H1 Hfit1), bind_ok, HA, make_table_run, H2.
    cbv zeta. rewrite Hfit2.
    cbv [mbind mret run_mbind run_mret run_bind run_ret]. cbn [app]. reflexivity. }
  apply Z.leb_gt in Hfit2.
  apply (run_completes w c file first (Some second));
    [exact Hfile|exact H1|by rewrite HA; simpl; rewrite H2|].
  constructor; [exact Hfit1|]. constructor; [exact Hfit2|constructor].
Qed.

Lemma fatal_run (f : Fatal) :
  fatal (A := unit) f = ([Stderr (stderr_text Prog_Name f)], Err (Exit 1)).
Proof. reflexivity. Qed.

Lemma commands_app (t1 t2 : list Event) :
  commands (t1 ++ t2) = commands t1 ++ commands t2.
Proof. apply omap_app. Qed.

Lemma plot_calls_app (t1 t2 : list Event) :
  plot_calls (t1 ++ t2) = plot_calls t1 ++ plot_calls t2.
Proof. apply omap_app. Qed.

Lemma commands_report (v : Z) (text : string) : commands (report v text) = [].
Proof. unfold report. by destruct (v =? 0). Qed.

Lemma plot_calls_report (v : Z) (text : string) : plot_calls (report v text) = [].
Proof. unfold report. by destruct (v =? 0). Qed.

Lemma commands_build (c : Config) (KMER : Z) (name : string) :
  commands (build c KMER name)
  = [fastk_command KMER (NTHREADS c) (SORT_PATH c) name].
Proof. unfold build. by rewrite commands_app, commands_report. Qed.

Lemma plot_calls_build (c : Config) (KMER : Z) (name : string) :
  plot_calls (build c KMER name) = [].
Proof. unfold build. by rewrite plot_calls_app, plot_calls_report. Qed.

Lemma commands_complete_trace (w : World) (c : Config) (KMER : Z)
    (first : string) (second : option string) :
  commands (complete_trace w c KMER first second)
  = (fastk_command KMER (NTHREADS c) (SORT_PATH c) <$> first :: option_list second)
    ++ (fastrm_command <$> first :: option_list second).
Proof.
  unfold complete_trace.
  change (commands (Fopen ?x :: ?t)) with (commands t).
  rewrite !commands_app, commands_build, commands_report.
  change (commands (AsmPlot ?a :: System ?x :: ?t)) with (x :: commands t).
  destruct second as [name|]; [|reflexivity].
  by rewrite commands_build.
Qed.

Lemma plot_calls_complete_trace (w : World) (c : Config) (KMER : Z)
    (first : string) (second : option string) :
  plot_calls (complete_trace w c KMER first second)
  = [plot_arguments w c first second].
Proof.
  unfold complete_trace.
  change (plot_calls (Fopen ?x :: ?t)) with (plot_calls t).
  rewrite !plot_calls_app, plot_calls_build, plot_calls_report.
  change (plot_calls (AsmPlot ?a :: System ?x :: ?t)) with (a :: plot_calls t).
  by destruct second as [name|]; rewrite ?plot_calls_build.
Qed.

(** [run_case w c] splits on the way the second block goes. *)
Ltac run_case w c :=
  let Hrun := fresh "Hrun" in
  pose proof (run_cases w c) as Hrun; cbv zeta in Hrun;
  repeat match goal with
         | H : ?x = _ |- _ =>
             match type of Hrun with context [match x with _ => _ end] =>
               rewrite H in Hrun
             end
         end;
  repeat match type of Hrun with
         | match ?x with _ => _ end => destruct x eqn:?
         end.

(** X2: when the command line is accepted, the reads table opens, the
    name of every assembly keeps six characters or more once its suffixes
    are dropped, and the commands for FastK fit the buffer, the run is
    complete: FastK and Fastrm are run on the names without their
    suffixes, [asm_plot] is called with them, and [main] ends with
    [exit (0)]. *)
Theorem long_names_give_a_complete_run (w : World) (argv : list string)
    (c : Config) (file : list byte) :
  parse_args argv = Ok c →
  fopen w (reads_table c) = Some file →
  Forall (λ name,
            Forall (λ ch, ch ≠ NUL) (list_ascii_of_string name) ∧
            Z.of_nat (String.length name) < 2 ^ 31 ∧
            (6 ≤ String.length (stripped name))%nat ∧
            fits c (fread_int file (int_wrap (indeterminate w))) (stripped name))
    (ASM0 c :: option_list (ASM1 c)) →
  main w argv
  = (complete_trace w c (fread_int file (int_wrap (indeterminate w)))
       (stripped (ASM0 c)) ((λ name, stripped name) <$> ASM1 c),
     Err (Exit 0)).
Proof.
  intros Hc Hfile Hnames. unfold main. rewrite Hc.
  apply Forall_cons in Hnames as [(Hn0 & Hi0 & Hl0 & Hf0) Hnames].
  pose proof (long_names_are_stripped_in_bounds _ Hn0 Hi0 Hl0) as H0.
  destruct (ASM1 c) as [a|] eqn:HA.
  - cbn [option_list] in Hnames.
    apply Forall_cons in Hnames as [(Hn1 & Hi1 & Hl1 & Hf1) _].
    pose proof (long_names_are_stripped_in_bounds _ Hn1 Hi1 Hl1) as H1.
    cbn [fmap option_fmap option_map].
    apply (run_completes w c file _ (Some _)); [exact Hfile|exact H0| |].
    + rewrite HA. cbn [fmap option_fmap option_map]. f_equal. exact H1.
    + constructor; [exact Hf0|]. constructor; [exact Hf1|constructor].
  - cbn [fmap option_fmap option_map].
    apply (run_completes w c file _ None); [exact Hfile|exact H0| |].
    + rewrite HA. reflexivity.
    + constructor; [exact Hf0|constructor].
Qed.

(** X3: when the command line is accepted and the reads table opens, a
    first assembly whose name has fewer than three characters ends the
    run in the first suffix test: [strcmp] reads [ASM[0][strlen - 3]],
    before the start of the argument, and nothing else has been done. *)
Theorem short_assembly_name_faults (w : World) (argv : list string)
    (c : Config) (file : list byte) :
  parse_args argv = Ok c →
  fopen w (reads_table c) = Some file →
  Forall (λ ch, ch ≠ NUL) (list_ascii_of_string (ASM0 c)) →
  (String.length (ASM0 c) < 3)%nat →
  main w argv
  = ([Fopen (reads_table c)],
     Err (Undefined (OutOfBoundsRead (Z.of_nat (String.length (ASM0 c)) - 3)))).
Proof.
  intros Hc Hfile Hname Hshort. unfold main. rewrite Hc.
  pose proof (run_cases w c) as Hrun.
  by rewrite Hfile, (short_name_faults _ Hname Hshort) in Hrun.
Qed.

(** X12: when the command line is accepted, the reads table opens, the
    names of the assemblies are long enough for the suffix tests and the
    commands for FastK fit the buffer, [main] opens the reads table, runs
    FastK on each assembly in order, calls [asm_plot] once, runs Fastrm on
    each assembly in the same order, and ends with [exit (0)]. *)
Theorem complete_run (w : World) (argv : list string) (c : Config)
    (file : list byte) (first : string) (second : option string) :
  parse_args argv = Ok c →
  fopen w (reads_table c) = Some file →
  strip_extensions (ASM0 c) = Ok first →
  strip_extensions <$> ASM1 c = Ok <$> second →
  Forall (fits c (fread_int file (int_wrap (indeterminate w))))
    (first :: option_list second) →
  main w argv
  = (complete_trace w c (fread_int file (int_wrap (indeterminate w))) first second,
     Err (Exit 0)).
Proof. intros Hc. unfold main. rewrite Hc. apply run_completes. Qed.

(** X13: [main] ends with [exit (0)] only after such a run: the command
    line was accepted, the reads table opened, every suffix test stayed in
    bounds, every command fitted the buffer, and the events are those of
    the complete run. *)
Theorem exit_0_only_after_a_complete_run (w : World) (argv : list string) :
  (main w argv).2 = Err (Exit 0) →
  ∃ c file first second,
    parse_args argv = Ok c ∧
    fopen w (reads_table c) = Some file ∧
    strip_extensions (ASM0 c) = Ok first ∧
    strip_extensions <$> ASM1 c = Ok <$> second ∧
    Forall (fits c (fread_int file (int_wrap (indeterminate w))))
      (first :: option_list second) ∧
    (main w argv).1
    = complete_trace w c (fread_int file (int_wrap (indeterminate w))) first second.
Proof.
  unfold main. destruct (parse_args argv) as [c|f] eqn:Hc;
    [|rewrite fatal_run; discriminate].
  intros Hexit. run_case w c; rewrite Hrun in Hexit |- *; try discriminate.
  - eexists c, _, _, (Some _). do 3 (split; [done|]).
    split; [match goal with H : ASM1 c = _ |- _ => rewrite H end;
            simpl; f_equal; eassumption|].
    split; [|reflexivity].
    constructor; [by apply Z.leb_gt|]. constructor; [by apply Z.leb_gt|constructor].
  - eexists c, _, _, None. do 3 (split; [done|]).
    split; [by match goal with H : ASM1 c = _ |- _ => rewrite H end|].
    split; [|reflexivity].
    constructor; [by apply Z.leb_gt|constructor].
Qed.

(** X14: when [main] ends with [exit (1)], the last thing it did was to
    write a message to stderr, and it has run no command and has not called
    [asm_plot]. *)
Theorem fatal_errors_come_before_any_command (w : World) (argv : list string) :
  (main w argv).2 = Err (Exit 1) →
  (∃ text, last (main w argv).1 = Some (Stderr text)) ∧
  commands (main w argv).1 = [] ∧
  plot_calls (main w argv).1 = [].
Proof.
  unfold main. destruct (parse_args argv) as [c|f] eqn:Hc.
  2:{ rewrite fatal_run. intros _. split; [by eexists|done]. }
  intros Hexit. run_case w c; rewrite Hrun in Hexit |- *; try discriminate.
  split; [by eexists|done].
Qed.

(** X15: [check_table] does not look at what [fread] returns.  When the
    reads table holds fewer than four bytes, no error is reported, and the
    first command run is FastK with a k-mer length of which the first
    bytes are the bytes of the table and the other bytes are those of the
    indeterminate value of the uninitialised [kmer]. *)
Theorem short_table_is_not_detected (w : World) (argv : list string)
    (c : Config) (file : list byte) (first : string) :
  parse_args argv = Ok c →
  fopen w (reads_table c) = Some file →
  (length file < 4)%nat →
  strip_extensions (ASM0 c) = Ok first →
  fits c (fread_int file (int_wrap (indeterminate w))) first →
  (main w argv).2 ≠ Err (Exit 1) ∧
  (∃ KMER,
     head (commands (main w argv).1)
     = Some (fastk_command KMER (NTHREADS c) (SORT_PATH c) first) ∧
     (∀ i b, file !! i = Some b → int_byte KMER i = byte_val b) ∧
     (∀ i, (length file ≤ i < 4)%nat → int_byte KMER i = int_byte (indeterminate w) i)).
Proof.
  intros Hc Hfile Hshort H1 Hfit. unfold main, fits in *. rewrite Hc.
  assert (∀ t, head (fastk_command (fread_int file (int_wrap (indeterminate w)))
                       (NTHREADS c) (SORT_PATH c) first :: t)
               = Some (fastk_command (fread_int file (int_wrap (indeterminate w)))
                         (NTHREADS c) (SORT_PATH c) first) ∧
               (∀ i b, file !! i = Some b →
                  int_byte (fread_int file (int_wrap (indeterminate w))) i = byte_val b) ∧
               (∀ i, (length file ≤ i < 4)%nat →
                  int_byte (fread_int file (int_wrap (indeterminate w))) i
                  = int_byte (indeterminate w) i)) as Hk.
  { intros t. split; [reflexivity|]. split.
    - intros i b Hb. apply fread_int_copies; [|done].
      apply lookup_lt_Some in Hb. lia.
    - intros i Hi. rewrite fread_int_keeps by done. apply int_byte_wrap. lia. }
  run_case w c; rewrite Hrun;
    try (apply Z.leb_le in Heqb; lia); cbn [fst snd]; (split; [discriminate|]);
    eexists.
  - change (commands (Fopen ?x :: ?t)) with (commands t).
    rewrite commands_app, commands_build. apply Hk.
  - rewrite commands_complete_trace. apply Hk.
  - change (commands (Fopen ?x :: ?t)) with (commands t).
    rewrite commands_build. apply Hk.
  - rewrite commands_complete_trace. apply Hk.
Qed.

(** X16: [sprintf] writes the command for FastK into [char command[5000]]
    without a bound.  When the path given with [-P] and the name of the
    first assembly are together at least 4981 characters long, the write
    runs over the end of the buffer, before any command is run. *)
Theorem long_command_overflows_the_buffer (w : World) (argv : list string)
    (c : Config) (file : list byte) (first : string) :
  parse_args argv = Ok c →
  fopen w (reads_table c) = Some file →
  strip_extensions (ASM0 c) = Ok first →
  (4981 ≤ String.length (SORT_PATH c) + String.length first)%nat →
  (∃ n, (5000 < n)%nat ∧ (main w argv).2 = Err (Undefined (BufferOverflow n))) ∧
  commands (main w argv).1 = [] ∧
  plot_calls (main w argv).1 = [].
Proof.
  intros Hc Hfile H1 Hlong. unfold main. rewrite Hc.
  pose proof (fastk_command_length (fread_int file (int_wrap (indeterminate w)))
                (NTHREADS c) (SORT_PATH c) first) as Hlen.
  run_case w c; try (apply Z.leb_gt in Heqb; lia).
  rewrite Hrun. cbn [fst snd]. split; [eexists; split; [|reflexivity]; lia|].
  change (commands (Fopen ?x :: ?t)) with (commands t).
  change (plot_calls (Fopen ?x :: ?t)) with (plot_calls t).
  by rewrite commands_report, plot_calls_report.
Qed.

(** X19: [asm_plot] is called exactly once in a run that ends with
    [exit (0)], and never in a run that ends otherwise. *)
Theorem asm_plot_is_called_once_or_never (w : World) (argv : list string) :
  ((main w argv).2 = Err (Exit 0) ∧ ∃ a, plot_calls (main w argv).1 = [a]) ∨
  ((main w argv).2 ≠ Err (Exit 0) ∧ plot_calls (main w argv).1 = []).
Proof.
  unfold main. destruct (parse_args argv) as [c|f] eqn:Hc;
    [|rewrite fatal_run; by right].
  run_case w c; rewrite Hrun; cbn [fst snd];
    try (left; split; [reflexivity|]; rewrite plot_calls_complete_trace; by eexists);
    right; (split; [discriminate|]);
    change (plot_calls (Fopen ?x :: ?t)) with (plot_calls t);
    rewrite ?plot_calls_app, ?plot_calls_build, ?plot_calls_report; reflexivity.
Qed.

(** X20: without [-v], a run in which the reads table opens writes nothing
    to stderr, however it ends. *)
Theorem quiet_run_writes_nothing (w : World) (argv : list string) (c : Config) :
  parse_args argv = Ok c →
  VERBOSE c = 0 →
  fopen w (reads_table c) ≠ None →
  Forall (λ e, is_stderr e = false) (main w argv).1.
Proof.
  intros Hc Hv Hfile. unfold main. rewrite Hc.
  run_case w c; try done; rewrite Hrun; cbn [fst snd];
    unfold complete_trace, build, report; rewrite ?Hv;
    change (0 =? 0) with true; cbv iota; cbn [app];
    repeat match goal with
           | |- Forall _ (match ?x with _ => _ end) => destruct x
           | |- Forall _ (_ :: _) => constructor; [reflexivity|]
           | |- Forall _ [] => constructor
           end.
Qed.

(** X21: in a run that ends with [exit (0)] every table that FastK built is
    removed: the commands are FastK on one or two names, all with the same
    k-mer length, threads and path, followed by Fastrm on the same names in
    the same order. *)
Theorem built_tables_are_removed (w : World) (argv : list string) :
  (main w argv).2 = Err (Exit 0) →
  ∃ c KMER names,
    parse_args argv = Ok c ∧
    (length names = 1 ∨ length names = 2)%nat ∧
    commands (main w argv).1
    = (fastk_command KMER (NTHREADS c) (SORT_PATH c) <$> names)
      ++ (fastrm_command <$> names).
Proof.
  unfold main. destruct (parse_args argv) as [c|f] eqn:Hc;
    [|rewrite fatal_run; discriminate].
  intros Hexit. run_case w c; rewrite Hrun in Hexit |- *; try discriminate.
  - eexists c, _, [_; _]. split; [done|]. split; [by right|].
    cbn [fst]. by rewrite commands_complete_trace.
  - eexists c, _, [_]. split; [done|]. split; [by left|].
    cbn [fst]. by rewrite commands_complete_trace.
Qed.

(** ** The k-mer length *)









End RunProperties.



Lemma long_names_give_a_complete_run_witness :
  ∃ c,
    @parse_args Sample.libfastk ["ASMplot"; "reads"; "assembly.fasta.gz"; "out"]
    = Ok c ∧
    stripped (ASM0 c) = "assembly" ∧
    @main Sample.libfastk Sample.world ["ASMplot"; "reads"; "assembly.fasta.gz"; "out"]
    = (@complete_trace Sample.libfastk Sample.world c
         (fread_int [Byte.x15; Byte.x00; Byte.x00; Byte.x00; Byte.x2a]
            (int_wrap (indeterminate Sample.world)))
         (stripped (ASM0 c)) ((λ name, stripped name) <$> ASM1 c),
       Err (Exit 0)).
Proof.
  eexists. split; [vm_compute; reflexivity|]. split; [vm_compute; reflexivity|].
  refine (@long_names_give_a_complete_run Sample.libfastk Sample.world
            ["ASMplot"; "reads"; "assembly.fasta.gz"; "out"]
            _ [Byte.x15; Byte.x00; Byte.x00; Byte.x00; Byte.x2a] _ _ _).
  - vm_compute; reflexivity.
  - vm_compute; reflexivity.
  - constructor; [|constructor].
    split; [apply (bool_decide_unpack _); vm_compute; exact I|].
    split; [vm_compute; reflexivity|].
    split; [vm_compute; lia|vm_compute; reflexivity].
Defined.

Lemma short_assembly_name_faults_witness :
  ∃ c,
    @parse_args Sample.libfastk ["ASMplot"; "reads"; "ab"; "out"] = Ok c ∧
    @reads_table Sample.libfastk c = "reads.ktab" ∧
    Z.of_nat (String.length (ASM0 c)) - 3 = -1 ∧
    @main Sample.libfastk Sample.world ["ASMplot"; "reads"; "ab"; "out"]
    = ([Fopen (@reads_table Sample.libfastk c)],
       Err (Undefined (OutOfBoundsRead (Z.of_nat (String.length (ASM0 c)) - 3)))).
Proof.
  eexists. split; [vm_compute; reflexivity|]. split; [vm_compute; reflexivity|].
  split; [reflexivity|].
  refine (@short_assembly_name_faults Sample.libfastk Sample.world
            ["ASMplot"; "reads"; "ab"; "out"]
            _ [Byte.x15; Byte.x00; Byte.x00; Byte.x00; Byte.x2a] _ _ _ _).
  - vm_compute; reflexivity.
  - vm_compute; reflexivity.
  - apply (bool_decide_unpack _). vm_compute. exact I.
  - simpl. lia.
Defined.

Lemma complete_run_witness :
  ∃ c,
    @parse_args Sample.libfastk
      ["ASMplot"; "-v"; "reads"; "assembly.fasta.gz"; "second.fa.gz"; "out"] = Ok c ∧
    @main Sample.libfastk Sample.world
      ["ASMplot"; "-v"; "reads"; "assembly.fasta.gz"; "second.fa.gz"; "out"]
    = (@complete_trace Sample.libfastk Sample.world c 21 "assembly" (Some "second"),
       Err (Exit 0)) ∧
    commands (@complete_trace Sample.libfastk Sample.world c 21 "assembly"
                (Some "second"))
    = ["FastK -k21 -T4 -P/tmp -t1 assembly"; "FastK -k21 -T4 -P/tmp -t1 second";
       "Fastrm assembly"; "Fastrm second"].
Proof.
  eexists. split; [vm_compute; reflexivity|]. split; [|vm_compute; reflexivity].
  refine (@complete_run Sample.libfastk Sample.world
            ["ASMplot"; "-v"; "reads"; "assembly.fasta.gz"; "second.fa.gz"; "out"]
            _ [Byte.x15; Byte.x00; Byte.x00; Byte.x00; Byte.x2a]
            "assembly" (Some "second") _ _ _ _ _).
  - vm_compute; reflexivity.
  - vm_compute; reflexivity.
  - vm_compute; reflexivity.
  - vm_compute; reflexivity.
  - constructor; [vm_compute; reflexivity|].
    constructor; [vm_compute; reflexivity|constructor].
Defined.

Lemma exit_0_only_after_a_complete_run_witness :
  ∃ c file first second,
    @parse_args Sample.libfastk ["ASMplot"; "reads"; "assembly.fasta.gz"; "out"]
    = Ok c ∧
    fopen Sample.world (@reads_table Sample.libfastk c) = Some file ∧
    strip_extensions (ASM0 c) = Ok first ∧
    strip_extensions <$> ASM1 c = Ok <$> second ∧
    Forall (fits c (fread_int file (int_wrap (indeterminate Sample.world))))
      (first :: option_list second) ∧
    (@main Sample.libfastk Sample.world
       ["ASMplot"; "reads"; "assembly.fasta.gz"; "out"]).1
    = @complete_trace Sample.libfastk Sample.world c
        (fread_int file (int_wrap (indeterminate Sample.world))) first second.
Proof.
  apply (@exit_0_only_after_a_complete_run Sample.libfastk Sample.world
           ["ASMplot"; "reads"; "assembly.fasta.gz"; "out"]).
  vm_compute; reflexivity.
Defined.

Lemma fatal_errors_come_before_any_command_witness :
  (∃ text,
     last (@main Sample.libfastk Sample.world
             ["ASMplot"; "reads"; "assembly.fasta.gz"; "out"; "-z"; "-pfoo"]).1
     = Some (Stderr text)) ∧
  commands (@main Sample.libfastk Sample.world
              ["ASMplot"; "reads"; "assembly.fasta.gz"; "out"; "-z"; "-pfoo"]).1 = [] ∧
  plot_calls (@main Sample.libfastk Sample.world
                ["ASMplot"; "reads"; "assembly.fasta.gz"; "out"; "-z"; "-pfoo"]).1 = [].
Proof.
  apply (@fatal_errors_come_before_any_command Sample.libfastk Sample.world
           ["ASMplot"; "reads"; "assembly.fasta.gz"; "out"; "-z"; "-pfoo"]).
  vm_compute; reflexivity.
Defined.

Lemma short_table_is_not_detected_witness :
  ∃ c,
    @parse_args Sample.libfastk ["ASMplot"; "reads"; "assembly.fasta.gz"; "out"]
    = Ok c ∧
    head (commands (@main Sample.libfastk Sample.short_world
                      ["ASMplot"; "reads"; "assembly.fasta.gz"; "out"]).1)
    = Some "FastK -k287453973 -T4 -P/tmp -t1 assembly" ∧
    287453973 = 0x11223315 ∧ indeterminate Sample.short_world = 0x11223344 ∧
    ((@main Sample.libfastk Sample.short_world
        ["ASMplot"; "reads"; "assembly.fasta.gz"; "out"]).2 ≠ Err (Exit 1) ∧
     ∃ KMER,
       head (commands (@main Sample.libfastk Sample.short_world
                         ["ASMplot"; "reads"; "assembly.fasta.gz"; "out"]).1)
       = Some (fastk_command KMER (NTHREADS c) (SORT_PATH c) "assembly") ∧
       (∀ i b, [Byte.x15] !! i = Some b → int_byte KMER i = byte_val b) ∧
       (∀ i, (length [Byte.x15] ≤ i < 4)%nat →
          int_byte KMER i = int_byte (indeterminate Sample.short_world) i)).
Proof.
  eexists. split; [vm_compute; reflexivity|]. split; [vm_compute; reflexivity|].
  split; [reflexivity|]. split; [reflexivity|].
  refine (@short_table_is_not_detected Sample.libfastk Sample.short_world
            ["ASMplot"; "reads"; "assembly.fasta.gz"; "out"]
            _ [Byte.x15] "assembly" _ _ _ _ _).
  - vm_compute; reflexivity.
  - vm_compute; reflexivity.
  - simpl; lia.
  - vm_compute; reflexivity.
  - vm_compute; reflexivity.
Defined.

Lemma long_command_overflows_the_buffer_witness :
  String.length Sample.long_path = 4990%nat ∧
  (∃ n, (5000 < n)%nat ∧
     (@main Sample.libfastk Sample.world
        ["ASMplot"; "-P" +:+ Sample.long_path; "reads"; "assembly.fasta.gz"; "out"]).2
     = Err (Undefined (BufferOverflow n))) ∧
  commands (@main Sample.libfastk Sample.world
              ["ASMplot"; "-P" +:+ Sample.long_path; "reads"; "assembly.fasta.gz";
               "out"]).1 = [] ∧
  plot_calls (@main Sample.libfastk Sample.world
                ["ASMplot"; "-P" +:+ Sample.long_path; "reads"; "assembly.fasta.gz";
                 "out"]).1 = [].
Proof.
  split; [vm_compute; reflexivity|].
  refine (@long_command_overflows_the_buffer Sample.libfastk Sample.world
            ["ASMplot"; "-P" +:+ Sample.long_path; "reads"; "assembly.fasta.gz"; "out"]
            _ [Byte.x15; Byte.x00; Byte.x00; Byte.x00; Byte.x2a] "assembly" _ _ _ _).
  - vm_compute; reflexivity.
  - vm_compute; reflexivity.
  - vm_compute; reflexivity.
  - apply Nat.leb_le. vm_compute; reflexivity.
Defined.

Lemma quiet_run_writes_nothing_witness :
  Forall (λ e, is_stderr e = false)
    (@main Sample.libfastk Sample.world
       ["ASMplot"; "reads"; "assembly.fasta.gz"; "second.fa.gz"; "out"]).1.
Proof.
  refine (@quiet_run_writes_nothing Sample.libfastk Sample.world
            ["ASMplot"; "reads"; "assembly.fasta.gz"; "second.fa.gz"; "out"] _ _ _ _).
  - vm_compute; reflexivity.
  - reflexivity.
  - vm_compute; discriminate.
Defined.

Lemma built_tables_are_removed_witness :
  ∃ c KMER names,
    @parse_args Sample.libfastk
      ["ASMplot"; "reads"; "assembly.fasta.gz"; "second.fa.gz"; "out"] = Ok c ∧
    (length names = 1 ∨ length names = 2)%nat ∧
    commands (@main Sample.libfastk Sample.world
                ["ASMplot"; "reads"; "assembly.fasta.gz"; "second.fa.gz"; "out"]).1
    = (fastk_command KMER (NTHREADS c) (SORT_PATH c) <$> names)
      ++ (fastrm_command <$> names).
Proof.
  apply (@built_tables_are_removed Sample.libfastk Sample.world
           ["ASMplot"; "reads"; "assembly.fasta.gz"; "second.fa.gz"; "out"]).
  vm_compute; reflexivity.
Defined.

(* ===================================================================== *)
(** * More on the options *)
(* ===================================================================== *)

Lemma substring_whole (s : string) : String.substring 0 (String.length s) s = s.
Proof. induction s as [|c s IH]; simpl; [reflexivity|by rewrite IH]. Qed.

Lemma pdf_option (arg : string) :
  char_at arg 0 = "-"%char → char_at arg 1 = "p"%char → after_letter arg = "df" →
  arg = "-pdf".
Proof.
  destruct arg as [|a0 [|a1 rest]]; [discriminate|discriminate|].
  unfold char_at, after_letter. simpl. rewrite Nat.sub_0_r, substring_whole.
  by intros -> -> ->.
Qed.

Section OptionProperties.
Context `{L : LibFastK}.

Lemma scan_arg_pdf (o o' : Options) (arg : string) :
  scan_arg o arg = Ok o' →
  o_PDF o' = if decide (arg = "-pdf") then 1 else o_PDF o.
Proof.
  destruct (decide (arg = "-pdf")) as [->|Hne].
  { destruct o. intros H. apply res_ok_inj in H. by subst o'. }
  unfold scan_arg. destruct (Ascii.eqb (char_at arg 0) "-") eqn:H0.
  2:{ destruct o. intros H. apply res_ok_inj in H. by subst o'. }
  destruct (Ascii.eqb (char_at arg 1) "p") eqn:Hp.
  { apply Ascii.eqb_eq in H0, Hp.
    destruct (String.eqb "df" (after_letter arg)) eqn:Hdf.
    - apply String.eqb_eq in Hdf. destruct Hne. by apply pdf_option.
    - rewrite scan_option_p by done. discriminate. }
  unfold scan_option, macro. destruct o. rewrite Hp. simpl. intros H.
  repeat (case_match; simplify_eq/=); done.
Qed.

Lemma scan_args_pdf (l : list string) (o o' : Options) :
  scan_args o l = Ok o' →
  o_PDF o' = if decide ("-pdf" ∈ l) then 1 else o_PDF o.
Proof.
  revert o. induction l as [|a l IH]; intros o; simpl.
  - intros H. apply res_ok_inj in H. subst o'.
    destruct (decide ("-pdf" ∈ [])) as [Hin|]; [|done]. by apply elem_of_nil in Hin.
  - destruct (scan_arg o a) as [o1|f] eqn:E; simpl; [|discriminate].
    intros H. rewrite (IH _ H), (scan_arg_pdf _ _ _ E).
    destruct (decide ("-pdf" ∈ l)) as [Hl|Hl].
    + rewrite decide_True; [done|]. by right.
    + destruct (decide (a = "-pdf")) as [->|Ha].
      * rewrite decide_True; [done|]. by left.
      * rewrite decide_False; [done|]. rewrite elem_of_cons. naive_solver.
Qed.

Lemma scan_arg_sort_path (o o' : Options) (arg : string) :
  scan_arg o arg = Ok o' →
  o_SORT_PATH o' = if is_P arg then after_letter arg else o_SORT_PATH o.
Proof.
  unfold scan_arg, is_P, is_option.
  destruct (Ascii.eqb (char_at arg 0) "-") eqn:H0.
  2:{ destruct o. intros H. apply res_ok_inj in H. by subst o'. }
  cbn [andb]. unfold scan_option, macro. destruct o.
  destruct (Ascii.eqb (char_at arg 1) "P") eqn:HP.
  - apply Ascii.eqb_eq in HP. rewrite HP.
    change (Ascii.eqb "P" "h") with false. change (Ascii.eqb "P" "p") with false.
    change (Ascii.eqb "P" "w") with false. change (Ascii.eqb "P" "x") with false.
    change (Ascii.eqb "P" "y") with false. change (Ascii.eqb "P" "P") with true.
    cbv iota. intros H. apply res_ok_inj in H. by subst o'.
  - simpl. intros H. repeat (case_match; simplify_eq/=); done.
Qed.

Lemma scan_args_sort_path (l : list string) (o o' : Options) :
  scan_args o l = Ok o' →
  o_SORT_PATH o'
  = match last (List.filter is_P l) with
    | Some arg => after_letter arg
    | None => o_SORT_PATH o
    end.
Proof.
  revert o. induction l as [|a l IH]; intros o; simpl.
  - intros H. apply res_ok_inj in H. by subst o'.
  - destruct (scan_arg o a) as [o1|f] eqn:E; simpl; [|discriminate].
    intros H. rewrite (IH _ H), (scan_arg_sort_path _ _ _ E).
    destruct (is_P a); [|reflexivity].
    rewrite last_cons. by destruct (last (List.filter is_P l)).
Qed.

Lemma configure_rest (o : Options) (c : Config) :
  configure o = Ok c →
  PDF c = o_PDF o ∧ SORT_PATH c = o_SORT_PATH o.
Proof.
  unfold configure. intros Hc. repeat (case_match; simplify_eq/=); done.
Qed.

(** X22: the PDF argument of [asm_plot] is 1 exactly when the argument
    [-pdf] is on the command line, and 0 otherwise. *)
Theorem pdf_only_with_the_pdf_option (w : World) (argv : list string) (a : PlotArgs) :
  a ∈ plot_calls (main w argv).1 →
  p_PDF a = if decide ("-pdf" ∈ tail argv) then 1 else 0.
Proof.
  intros Hin.
  destruct (plot_call_of_main w argv a Hin) as (c & Hc & Hcall).
  destruct (plot_call_arguments w c a Hcall) as (asm1 & asm2 & ->). simpl.
  unfold parse_args in Hc.
  destruct (scan_args defaults (tail argv)) as [o|f] eqn:E; simpl in Hc; [|discriminate].
  destruct (configure_rest _ _ Hc) as [-> _].
  apply (scan_args_pdf _ _ _ E).
Qed.

(** X23: the path for FastK is the text after the letter of the last
    option [-P] on the command line, and [/tmp] when there is none. *)
Theorem last_P_option_is_the_sort_path (argv : list string) (c : Config) :
  parse_args argv = Ok c →
  SORT_PATH c
  = match last (List.filter is_P (tail argv)) with
    | Some arg => after_letter arg
    | None => "/tmp"
    end.
Proof.
  unfold parse_args. intros Hc.
  destruct (scan_args defaults (tail argv)) as [o|f] eqn:E; simpl in Hc; [|discriminate].
  destruct (configure_rest _ _ Hc) as [_ ->].
  apply (scan_args_sort_path _ _ _ E).
Qed.

End OptionProperties.

Lemma pdf_only_with_the_pdf_option_witness :
  ∃ a,
    a ∈ plot_calls (@main Sample.libfastk Sample.world
                      ["ASMplot"; "reads"; "-pdf"; "assembly.fasta"; "out"]).1 ∧
    p_PDF a = 1.
Proof.
  eexists. split; [vm_compute; left|].
  refine (@pdf_only_with_the_pdf_option Sample.libfastk Sample.world
            ["ASMplot"; "reads"; "-pdf"; "assembly.fasta"; "out"] _ _).
  vm_compute; left.
Defined.

Lemma last_P_option_is_the_sort_path_witness :
  ∃ c,
    @parse_args Sample.libfastk
      ["ASMplot"; "-P/scratch"; "reads"; "assembly.fasta"; "-P."; "out"] = Ok c ∧
    SORT_PATH c = ".".
Proof.
  eexists. split; [vm_compute; reflexivity|].
  refine (@last_P_option_is_the_sort_path Sample.libfastk
            ["ASMplot"; "-P/scratch"; "reads"; "assembly.fasta"; "-P."; "out"] _ _).
  vm_compute; reflexivity.
Defined.
